(** * Route progress simulator (client/src/pages/LocationTrack.tsx) and the
    display-side history buffer (client/src/pages/Dashboard.tsx)

  JavaScript numbers are IEEE-754 binary64 values; they are modelled by
  Rocq's primitive [float], whose operations are the same binary64
  operations with round-to-nearest-even.  Numbers that the program uses as
  integers (array lengths, array indices, the result of [Math.floor],
  [Date.now()]) are carried as [Z]; the conversions between the two views
  are written out ([Z2F], [Math_floor], [toNumber]). *)

From Stdlib Require Import Floats ZArith List Lia Bool Sorted.
From Stdlib Require String.
From Stdlib Require Import Uint63.
Import ListNotations.

#[local] Set Warnings "-inexact-float".
#[local] Open Scope float_scope.

(** ** JavaScript numbers *)

Module JS.

(** An integer seen as a number: the binary64 nearest to it.  The conversion
    is exact for every integer that is a binary64 value, so for every array
    length and index (below [2^32]) and every result of [Math.floor]. *)
Definition Z2F (z : Z) : float :=
  SF2Prim (binary_normalize prec emax z 0 false).

(** The possible results of [Math.floor]: an integer, or one of the values
    [Math.floor] passes through unchanged. *)
Inductive jsint :=
  | JInt (z : Z)
  | JNegZero
  | JPosInf
  | JNegInf
  | JNaN.

(** [Math.floor x]: the greatest integer not above [x]; [-0], the infinities
    and [NaN] are returned as they are.  A finite binary64 is [±m·2^e]; shifting
    the signed mantissa by [e] is the floor of that quotient. *)
Definition Math_floor (x : float) : jsint :=
  match Prim2SF x with
  | S754_nan => JNaN
  | S754_infinity s => if s then JNegInf else JPosInf
  | S754_zero s => if s then JNegZero else JInt 0
  | S754_finite s m e => JInt (Z.shiftl (if s then Zneg m else Zpos m) e)
  end.

(** [Math.min a b] where [b] is an integer. *)
Definition Math_min (a : jsint) (b : Z) : jsint :=
  match a with
  | JInt z => JInt (Z.min z b)
  | JNegZero => if (b <? 0)%Z then JInt b else JNegZero
  | JPosInf => JInt b
  | JNegInf => JNegInf
  | JNaN => JNaN
  end.

(** [a + 1]. *)
Definition succ (a : jsint) : jsint :=
  match a with
  | JInt z => JInt (z + 1)
  | JNegZero => JInt 1
  | other => other
  end.

(** The value back as a binary64, for mixed arithmetic. *)
Definition toNumber (a : jsint) : float :=
  match a with
  | JInt z => Z2F z
  | JNegZero => -0
  | JPosInf => infinity
  | JNegInf => neg_infinity
  | JNaN => nan
  end.

(** The array index a number denotes, if any; [-0] denotes the index [0]. *)
Definition toIndex (i : jsint) : option nat :=
  match i with
  | JInt z => if (z <? 0)%Z then None else Some (Z.to_nat z)
  | JNegZero => Some 0%nat
  | _ => None
  end.

(** [arr[i]]: the element when [i] is an index of the array, [undefined]
    ([None]) otherwise. *)
Definition index {A : Type} (arr : list A) (i : jsint) : option A :=
  match toIndex i with
  | Some k => nth_error arr k
  | None => None
  end.

(** [Object.is] on numbers, the comparison React applies to dependencies
    and to state updates. *)
Definition Object_is (x y : float) : bool := Leibniz.eqb x y.

(** [arr.slice(-k)]: the last [k] elements, or all of them when there are
    fewer. *)
Definition slice_last {A : Type} (k : nat) (arr : list A) : list A :=
  skipn (length arr - k) arr.

End JS.
Import JS.

(** ** Data *)

Record LatLng := mkLatLng { lat : float; lng : float }.

Record Location := mkLocation {
  loc_lat : float;
  loc_lng : float;
  timestamp : Z;
  accuracy : option float;
  speed : option float;
  heading : option float
}.

(** ** Shapes of binary64 values used in the proofs *)

(** What [binary_round_aux] returns from a final mantissa and exponent. *)
Definition rounded (s : bool) (m e : Z) : spec_float :=
  match m with
  | Z0 => S754_zero s
  | Zpos p => if (e <=? emax - prec)%Z then S754_finite s p e else S754_infinity s
  | Zneg _ => S754_nan
  end.

(** Zero or a positive finite number: the numbers in [[0, 1]] and more. *)
Definition nonneg_finite (x : spec_float) : Prop :=
  match x with
  | S754_zero _ | S754_finite false _ _ => True
  | _ => False
  end.

(** Zero, a positive finite number or [+Infinity]. *)
Definition nonneg_number (x : spec_float) : Prop :=
  match x with
  | S754_zero _ | S754_finite false _ _ | S754_infinity false => True
  | _ => False
  end.

(** Zero or finite. *)
Definition finite_number (x : spec_float) : Prop :=
  match x with
  | S754_zero _ | S754_finite _ _ _ => True
  | _ => False
  end.

(** A zero, or a finite number whose exponent is at most [emax_]: every
    binary64 of magnitude at most [2^(emax_ + 53)]. *)
Definition small (emax_ : Z) (x : spec_float) : Prop :=
  match x with
  | S754_zero _ => True
  | S754_finite _ m e =>
      (-1074 <= e <= emax_)%Z /\ (Zdigits2 (Zpos m) <= 53)%Z
  | _ => False
  end.

(** [0 <= p <= 1]. *)
Definition unit_interval (p : float) : Prop :=
  (0 <=? p) = true /\ (p <=? 1) = true.

(** A geographic coordinate pair: latitude within 90 degrees of the equator,
  longitude within 180 degrees of the prime meridian. *)
Definition geographic (w : LatLng) : Prop :=
  ((-90 <=? lat w) = true /\ (lat w <=? 90) = true) /\
  ((-180 <=? lng w) = true /\ (lng w <=? 180) = true).

(** A route the simulator accepts: at least two waypoints, and a length that
  is an exact binary64 integer (every JavaScript array length is). *)
Definition route_ok (route : list LatLng) : Prop :=
  (2 <= length route)%nat /\ (Z.of_nat (length route) <= 2 ^ 53)%Z.

(** ** The simulator's pure functions, for an arbitrary route *)

Section Simulator.

(** The waypoints of the route. *)
Variable routePoints : list LatLng.

(** [window.google.maps.geometry.spherical.computeHeading], [None] while the
    maps script has not defined [window.google]. *)
Variable google : option (LatLng -> LatLng -> float).

Definition calculateHeading (start finish : LatLng) : float :=
  match google with
  | None => 0
  | Some computeHeading => computeHeading start finish
  end.

Definition interpolatePoints (p1 p2 : LatLng) (t : float) : LatLng :=
  {| lat := lat p1 + (lat p2 - lat p1) * t;
     lng := lng p1 + (lng p2 - lng p1) * t |}.

(** [routePoints.length] *)
Definition routeLength : Z := Z.of_nat (length routePoints).

Definition findCurrentSegment (progress : float) : jsint :=
  if 1 <=? progress then JInt (routeLength - 2)
  else
    let totalSegments := (routeLength - 1)%Z in
    let progressPerSegment := 1 / Z2F totalSegments in
    let currentSegment := Math_floor (progress / progressPerSegment) in
    Math_min currentSegment (totalSegments - 1).

(** The local parameter computed by the "update target location" effect. *)
Definition segmentProgress (progress : float) : float :=
  let currentSegment := findCurrentSegment progress in
  let totalSegments := (routeLength - 1)%Z in
  let progressPerSegment := 1 / Z2F totalSegments in
  (progress - (toNumber currentSegment * progressPerSegment)) / progressPerSegment.

(** The sample built by the "update target location" effect for a progress
    value, [now] being the reading of [Date.now()].  [None] stands for the
    [TypeError] raised when an endpoint lookup yields [undefined]. *)
Definition newLocationAt (progress : float) (now : Z) : option Location :=
  let currentSegment := findCurrentSegment progress in
  match index routePoints currentSegment,
        index routePoints (succ currentSegment) with
  | Some p1, Some p2 =>
      let newPos := interpolatePoints p1 p2 (segmentProgress progress) in
      let heading := calculateHeading p1 p2 in
      Some {| loc_lat := lat newPos;
              loc_lng := lng newPos;
              timestamp := now;
              accuracy := None;
              speed := Some 60;
              heading := Some heading |}
  | _, _ => None
  end.

End Simulator.

(** The route the component ships with. *)
Definition routePoints : list LatLng :=
  [ mkLatLng 18.4386 79.1288;
    mkLatLng 18.3500 79.0500;
    mkLatLng 18.1500 78.9500;
    mkLatLng 18.0000 78.8500;
    mkLatLng 17.7500 78.7000;
    mkLatLng 17.5500 78.6000;
    mkLatLng 17.4500 78.5500;
    mkLatLng 17.3850 78.4867 ].

(** A route of eight geographic waypoints from Paris to London. *)
Definition parisLondon : list LatLng :=
  [ mkLatLng 48.8566 2.3522;
    mkLatLng 49.2 2.0;
    mkLatLng 49.6 1.6;
    mkLatLng 50.0 1.3;
    mkLatLng 50.4 1.0;
    mkLatLng 50.8 0.6;
    mkLatLng 51.2 0.2;
    mkLatLng 51.5074 (-0.1278) ].

(** ** Progress advancement *)

Definition advance (prev : float) : float :=
  let newProgress := prev + 0.001 in
  if 1 <? newProgress then 1 else newProgress.

(** ** The LocationTracker component *)

(** The component is modelled as a state machine over the events that drive
    the simulation.  Each event is handled to completion before the next one:
    the handler queues state updates, React renders and commits, the effects
    of the commit run, and the updates they queue are rendered and committed
    in turn.  The clock does not move while an event is handled.  The parts of
    the component that only feed the map widget or read the device position
    do not touch the state below and are left out.

    The state: the [useState] cells of the simulation, [animationRef], and
    the two pieces of browser state the simulation reads, the clock behind
    [Date.now()] and the counter behind [requestAnimationFrame] handles. *)
Record Tracker := mkTracker {
  isConnected : bool;
  progress : float;
  locationHistory : list Location;
  targetLocation : option Location;
  animationRef : option nat;
  lastFrame : nat;
  now : Z
}.

Definition setIsConnected (b : bool) (s : Tracker) : Tracker :=
  mkTracker b (progress s) (locationHistory s) (targetLocation s)
            (animationRef s) (lastFrame s) (now s).

Definition setProgress (f : float -> float) (s : Tracker) : Tracker :=
  mkTracker (isConnected s) (f (progress s)) (locationHistory s)
            (targetLocation s) (animationRef s) (lastFrame s) (now s).

Definition setLocationHistory (f : list Location -> list Location)
    (s : Tracker) : Tracker :=
  mkTracker (isConnected s) (progress s) (f (locationHistory s))
            (targetLocation s) (animationRef s) (lastFrame s) (now s).

Definition setTargetLocation (l : Location) (s : Tracker) : Tracker :=
  mkTracker (isConnected s) (progress s) (locationHistory s) (Some l)
            (animationRef s) (lastFrame s) (now s).

(** [animationRef.current = requestAnimationFrame(animateAlongRoute)] *)
Definition requestAnimationFrame (s : Tracker) : Tracker :=
  mkTracker (isConnected s) (progress s) (locationHistory s)
            (targetLocation s) (Some (S (lastFrame s))) (S (lastFrame s))
            (now s).

(** [if (animationRef.current) { cancelAnimationFrame(animationRef.current);
  animationRef.current = null; }] *)
Definition cancelAnimationFrame (s : Tracker) : Tracker :=
  mkTracker (isConnected s) (progress s) (locationHistory s)
            (targetLocation s) None (lastFrame s) (now s).

(** Time passes; the clock does not run backwards. *)
Definition elapse (dt : nat) (s : Tracker) : Tracker :=
  mkTracker (isConnected s) (progress s) (locationHistory s)
            (targetLocation s) (animationRef s) (lastFrame s)
            (now s + Z.of_nat dt).

(** [ClickConnect]: the start/stop button is clicked; [AnimationFrame]: the
    browser runs the pending frame callback; [Elapse dt]: the clock moves on
    by [dt] milliseconds. *)
Inductive Event :=
  | ClickConnect
  | AnimationFrame
  | Elapse (dt : nat).

Section Component.

Variable route : list LatLng.
Variable google : option (LatLng -> LatLng -> float).

(** An effect reads the values of the render it belongs to ([render]) and
    queues state updates; queued updates are applied in order, each updater
    function to the result of the ones before it, so they are threaded
    through [st]. *)

(** "Start/stop animation based on connection status" *)
Definition startStopEffect (render st : Tracker) : Tracker :=
  if isConnected render then
    requestAnimationFrame
      (setLocationHistory (fun _ => []) (setProgress (fun _ => 0) st))
  else cancelAnimationFrame st.

(** "Update target location based on progress" *)
Definition updateTargetEffect (render st : Tracker) : option Tracker :=
  if negb (isConnected render) then Some st
  else
    match newLocationAt route google (progress render) (now st) with
    | None => None
    | Some newLocation =>
        Some (setLocationHistory (fun prev => prev ++ [newLocation])
                (setTargetLocation newLocation st))
    end.

(** The effects of one commit.  [prev] is the render committed before,
    [cur] the render being committed.  An effect runs when one of its
    dependencies differs ([Object.is]) from the previous render; the cleanup
    of the start/stop effect runs before its body; effects run in the order
    of their declaration. *)
Definition commit (prev cur : Tracker) : option Tracker :=
  let connectedChanged := negb (Bool.eqb (isConnected prev) (isConnected cur)) in
  let progressChanged := negb (Object_is (progress prev) (progress cur)) in
  let st :=
    if connectedChanged
    then startStopEffect cur (cancelAnimationFrame cur)
    else cur in
  if connectedChanged || progressChanged
  then updateTargetEffect cur st
  else Some st.

(** Updates queued by the effects of a commit cause one more render and
    commit.  The second commit can only run the update-target effect, which
    changes no dependency, so a third commit would run nothing
    (see [flush_at_rest]). *)
Definition flush (prev cur : Tracker) : option Tracker :=
  match commit prev cur with
  | None => None
  | Some st => commit cur st
  end.

(** The button handler ([getUserLocation] only concerns the user marker). *)
Definition connectToTracker (s : Tracker) : Tracker :=
  if isConnected s then setIsConnected false s
  else setIsConnected true s.

(** The frame callback.  [connected] is the [isConnected] of the render
    whose closure was handed to [requestAnimationFrame]. *)
Definition animateAlongRoute (connected : bool) (s : Tracker) : Tracker :=
  if negb connected then s
  else requestAnimationFrame (setProgress advance s).

(** The callback is scheduled by the start/stop effect in its
    [isConnected] branch and re-schedules itself, so the closure that runs
    always has [isConnected = true]. *)
Definition step (e : Event) (s : Tracker) : option Tracker :=
  match e with
  | ClickConnect => flush s (connectToTracker s)
  | AnimationFrame =>
      match animationRef s with
      | None => Some s
      | Some _ => flush s (animateAlongRoute true s)
      end
  | Elapse dt => Some (elapse dt s)
  end.

Fixpoint run (evs : list Event) (s : Tracker) : option Tracker :=
  match evs with
  | [] => Some s
  | e :: rest =>
      match step e s with
      | None => None
      | Some s' => run rest s'
      end
  end.

(** The component after mounting, at clock reading [t]. *)
Definition mount (t : Z) : Tracker :=
  {| isConnected := false;
     progress := 0;
     locationHistory := [];
     targetLocation :=
       Some {| loc_lat := 18.4386; loc_lng := 79.1288; timestamp := t;
               accuracy := None; speed := None; heading := None |};
     animationRef := None;
     lastFrame := 0;
     now := t |}.

End Component.

(** An example state: a running session that has reached the end of the
    route. *)
Definition atDestination : Tracker :=
  {| isConnected := true;
     progress := 1;
     locationHistory := [];
     targetLocation := None;
     animationRef := Some 1%nat;
     lastFrame := 1;
     now := 0 |}.

(** Number of frame callbacks in an event list. *)
Definition frames (evs : list Event) : nat :=
  List.length (filter (fun e => match e with AnimationFrame => true | _ => false end) evs).

(** Event lists without a click. *)
Definition no_click (evs : list Event) : Prop :=
  Forall (fun e => e <> ClickConnect) evs.

(** Progress after [k] ticks from a start. *)
Fixpoint progressAfter (k : nat) : float :=
  match k with
  | O => 0
  | S j => advance (progressAfter j)
  end.

(** The facts checked by evaluation for the tick from [k] to [k + 1] ticks:
    the value changes, grows, and lies in [[0, 1]]. *)
Definition tick_check (k : nat) : bool :=
  let p := progressAfter k in
  let q := progressAfter (S k) in
  negb (Object_is p q) && (p <? q) && (p <=? q) && (p <=? p) && (0 <=? p) && (p <=? 1).

(** States the component can be in: those an event sequence leads to from
    the mounted component. *)
Definition reachable (route : list LatLng)
    (google : option (LatLng -> LatLng -> float)) (s : Tracker) : Prop :=
  exists t evs, run route google evs (mount t) = Some s.

(** Samples in time order. *)
Definition ascending (h : list Location) : Prop :=
  Sorted Z.le (map timestamp h).

(** ** The display-side history of Dashboard.tsx *)

Module Display.

Inductive Mode := tracker | display.

Record DLocation := mkDLocation {
    d_lat : float;
    d_lng : float;
    d_timestamp : Z;
    deviceId : option String.string
}.

Record State := mkState {
    deviceMode : Mode;
    selectedDevice : option String.string;
    currentLocation : option DLocation;
    locationHistory : list DLocation
}.

(** [!selectedDevice]: [null] and the empty string are falsy. *)
Definition falsy (d : option String.string) : bool :=
  match d with
  | None => true
  | Some s => String.eqb s String.EmptyString
  end.

(** [data.deviceId === selectedDevice], [selectedDevice] being truthy. *)
Definition same_device (a b : option String.string) : bool :=
  match a, b with
  | Some x, Some y => String.eqb x y
  | _, _ => false
  end.

(** [socket.on('locationUpdate', ...)] *)
Definition onLocationUpdate (data : DLocation) (s : State) : State :=
  match deviceMode s with
  | display =>
      if falsy (selectedDevice s) || same_device (deviceId data) (selectedDevice s)
      then mkState (deviceMode s) (selectedDevice s) (Some data)
                   (slice_last 200 (locationHistory s) ++ [data])
      else s
  | tracker => s
  end.

(** [handleDeviceSelect] *)
Definition handleDeviceSelect (id : String.string) (s : State) : State :=
  mkState (deviceMode s) (Some id) (currentLocation s) [].

(** [switchMode] *)
Definition switchMode (s : State) : State :=
  mkState (match deviceMode s with tracker => display | display => tracker end)
          (selectedDevice s) (currentLocation s) (locationHistory s).

Inductive Msg :=
  | LocationUpdate (data : DLocation)
  | DeviceSelect (id : String.string)
  | SwitchMode.

Definition handle (m : Msg) (s : State) : State :=
  match m with
  | LocationUpdate data => onLocationUpdate data s
  | DeviceSelect id => handleDeviceSelect id s
  | SwitchMode => switchMode s
  end.

Definition initial : State := mkState display None None [].

(** The state after a sequence of messages. *)
Definition run (msgs : list Msg) (s : State) : State :=
  fold_left (fun st m => handle m st) msgs s.

(** The test of the ['locationUpdate'] handler:
    [deviceMode === 'display' && (!selectedDevice || data.deviceId === selectedDevice)]. *)
Definition accepts (data : DLocation) (s : State) : bool :=
  match deviceMode s with
  | display => falsy (selectedDevice s) || same_device (deviceId data) (selectedDevice s)
  | tracker => false
  end.

(** The history as it would be without the bound: starting from [log], every
    sample the handler accepts is appended and nothing is ever dropped; a
    device selection empties it.  The messages are handled by the state the
    page is in when they arrive. *)
Fixpoint received (msgs : list Msg) (s : State) (log : list DLocation) : list DLocation :=
  match msgs with
  | [] => log
  | m :: rest =>
      received rest (handle m s)
        match m with
        | LocationUpdate data => if accepts data s then log ++ [data] else log
        | DeviceSelect _ => []
        | SwitchMode => log
        end
  end.

End Display.

(** ** What LocationTrack.tsx hands to the map and to the progress bar *)

(** [{ lat: loc.lat, lng: loc.lng }] *)
Definition positionOf (loc : Location) : LatLng :=
  mkLatLng (loc_lat loc) (loc_lng loc).

(** The calls of the "update map when target location changes" effect:
    [marker.setPosition], [marker.setIcon] with a rotation (only when the
    target has a heading) and [path.setPath]. *)
Record MapUpdate := mkMapUpdate {
  markerPosition : LatLng;
  markerRotation : option float;
  pathCoords : list LatLng
}.

(** The effect; [ready] says that the map, the marker and the path exist (and
    with them [window.google], which made them).  [None]: the effect returns
    before touching the map. *)
Definition updateMapEffect (ready : bool) (s : Tracker) : option MapUpdate :=
  if negb ready then None
  else
    match targetLocation s with
    | None => None
    | Some target =>
        let position := positionOf target in
        Some {| markerPosition := position;
                markerRotation := heading target;
                pathCoords := map positionOf (locationHistory s) ++ [position] |}
    end.

(** The width of the progress bar and the "Journey" figure: [progress * 100]. *)
Definition progressPercent (s : Tracker) : float := progress s * 100.

(** The rectangle spanned by the two points the map bounds are extended with
    when the map is created, Karimnagar and Hyderabad. *)
Definition betweenTheCities (p : LatLng) : bool :=
  (17.3850 <=? lat p) && (lat p <=? 18.4386) &&
  (78.4867 <=? lng p) && (lng p <=? 79.1288).

(** The facts checked by evaluation for the sample after [k] ticks on the
    shipped route. *)
Definition sample_check (k : nat) : bool :=
  match newLocationAt routePoints None (progressAfter k) 0 with
  | Some l => betweenTheCities (positionOf l)
  | None => false
  end.

(** The facts checked by evaluation for the progress after [k] ticks. *)
Definition percent_check (k : nat) : bool :=
  let p := progressAfter k in
  (p <? 1) && (0 <=? p * 100) && (p * 100 <? 100).

(** The target shows the newest sample of the history. *)
Definition shows_latest (s : Tracker) : Prop :=
  locationHistory s = [] \/
  exists h l, locationHistory s = h ++ [l] /\ targetLocation s = Some l.

(** Every sample of the history is the one the simulator computes for the
    progress after some number of ticks. *)
Definition from_ticks (route : list LatLng)
    (google : option (LatLng -> LatLng -> float)) (s : Tracker) : Prop :=
  (exists k, progress s = progressAfter k) /\
  Forall (fun l => exists k t,
            newLocationAt route google (progressAfter k) t = Some l)
         (locationHistory s).

(** ** The page around the simulator (LocationTrack.tsx) *)

Module Page.

Import String.
#[local] Open Scope string_scope.

(** [position.coords] as the success callback of [getCurrentPosition] reads
    it. *)
Record Coords := mkCoords {
  latitude : float;
  longitude : float;
  coordsAccuracy : float
}.

(** The simulator's cells and the other [useState] cells the handlers below
    write; [mapCreated] says that the [map] cell is no longer [null]. *)
Record State := mkState {
  sim : Tracker;
  userLocation : option Location;
  error : option string;
  isApiLoaded : bool;
  mapCreated : bool
}.

(** [ScriptLoad] and [ScriptError]: the [onload] and [onerror] of the maps
    script; [Simulator e]: an event of the simulator, [ClickConnect] being the
    start/stop button; [UpdateMyLocation]: the second button;
    [PositionSuccess] and [PositionError]: the two callbacks handed to
    [navigator.geolocation.getCurrentPosition]. *)
Inductive PageEvent :=
  | ScriptLoad
  | ScriptError
  | Simulator (e : Event)
  | UpdateMyLocation
  | PositionSuccess (c : Coords)
  | PositionError (message : string).

Section Handlers.

Variable route : list LatLng.
Variable google : option (LatLng -> LatLng -> float).

(** Whether [navigator.geolocation] exists. *)
Variable geolocation : bool.

Definition setError (e : string) (s : State) : State :=
  mkState (sim s) (userLocation s) (Some e) (isApiLoaded s) (mapCreated s).

(** [getUserLocation]: without geolocation the error is set; with it a
    lookup is requested, whose outcome arrives later as an event. *)
Definition getUserLocation (s : State) : State :=
  if negb geolocation
  then setError "Geolocation is not supported by your browser" s
  else s.

(** The success callback of [getUserLocation]. *)
Definition onPosition (c : Coords) (s : State) : State :=
  let newUserLocation :=
    {| loc_lat := latitude c;
       loc_lng := longitude c;
       timestamp := now (sim s);
       accuracy := Some (coordsAccuracy c);
       speed := None;
       heading := None |} in
  mkState (sim s) (Some newUserLocation) (error s) (isApiLoaded s) (mapCreated s).

(** The error callback of [getUserLocation]. *)
Definition onPositionError (message : string) (s : State) : State :=
  setError ("Error getting location: " ++ message) s.

(** [script.onload]: the page is rendered, and the "initialize map" effect,
    which runs when [isApiLoaded] changes, creates the map once and asks for
    the user's position.  [new window.google.maps.Map] throws when
    [window.google] is not defined. *)
Definition onScriptLoad (s : State) : option State :=
  if isApiLoaded s then Some s
  else
    let s1 := mkState (sim s) (userLocation s) (error s) true (mapCreated s) in
    if mapCreated s1 then Some s1
    else
      match google with
      | None => None
      | Some _ =>
          Some (getUserLocation
                  (mkState (sim s1) (userLocation s1) (error s1) (isApiLoaded s1) true))
      end.

(** An event of the simulator; [connectToTracker] asks for the user's
    position before a start when none is known.  The buttons exist only once
    the maps script is loaded. *)
Definition onSimulator (e : Event) (s : State) : option State :=
  let s1 :=
    match e with
    | ClickConnect =>
        if negb (isConnected (sim s)) then
          match userLocation s with
          | None => getUserLocation s
          | Some _ => s
          end
        else s
    | _ => s
    end in
  match e, isApiLoaded s with
  | ClickConnect, false => Some s
  | _, _ =>
      match step route google e (sim s) with
      | None => None
      | Some sim' =>
          Some (mkState sim' (userLocation s1) (error s1) (isApiLoaded s1) (mapCreated s1))
      end
  end.

Definition step (e : PageEvent) (s : State) : option State :=
  match e with
  | ScriptLoad => onScriptLoad s
  | ScriptError => Some (setError "Failed to load Google Maps API" s)
  | Simulator e' => onSimulator e' s
  | UpdateMyLocation => Some (if isApiLoaded s then getUserLocation s else s)
  | PositionSuccess c => Some (onPosition c s)
  | PositionError message => Some (onPositionError message s)
  end.

Fixpoint run (evs : list PageEvent) (s : State) : option State :=
  match evs with
  | [] => Some s
  | e :: rest =>
      match step e s with
      | None => None
      | Some s' => run rest s'
      end
  end.

End Handlers.

(** The page after mounting, before the maps script has loaded. *)
Definition mount (t : Z) : State :=
  mkState (mount t) None None false false.

End Page.

(** ** The device list of the display (Dashboard.tsx) *)

Module Console.

Record DeviceInfo := mkDeviceInfo {
  id : String.string;
  name : String.string;
  lastSeen : Z
}.

(** The display's cells of [Display.State] together with the two further
    cells the [devicesList] handler reads and writes. *)
Record State := mkState {
  view : Display.State;
  sessionId : String.string;
  connectedDevices : list DeviceInfo
}.

(** [d.id !== sessionId] *)
Definition other (session : String.string) (d : DeviceInfo) : bool :=
  negb (String.eqb (id d) session).

(** [socket.on('devicesList', ...)] *)
Definition onDevicesList (devices : list DeviceInfo) (c : State) : State :=
  let v := view c in
  let selected :=
    match Display.deviceMode v with
    | Display.display =>
        if Display.falsy (Display.selectedDevice v) &&
           existsb (other (sessionId c)) devices
        then
          match find (other (sessionId c)) devices with
          | Some firstTracker => Some (id firstTracker)
          | None => Display.selectedDevice v
          end
        else Display.selectedDevice v
    | Display.tracker => Display.selectedDevice v
    end in
  mkState
    (Display.mkState (Display.deviceMode v) selected
                     (Display.currentLocation v) (Display.locationHistory v))
    (sessionId c)
    (filter (other (sessionId c)) devices).

Inductive Msg :=
  | View (m : Display.Msg)
  | DevicesList (devices : list DeviceInfo).

Definition handle (m : Msg) (c : State) : State :=
  match m with
  | View m' => mkState (Display.handle m' (view c)) (sessionId c) (connectedDevices c)
  | DevicesList devices => onDevicesList devices c
  end.

Definition run (msgs : list Msg) (c : State) : State :=
  fold_left (fun st m => handle m st) msgs c.

(** Messages other than a manual device selection. *)
Definition no_select (m : Msg) : Prop :=
  match m with
  | View (Display.DeviceSelect _) => False
  | _ => True
  end.

End Console.

(** ** The sharing side of the tracker page (Dashboard.tsx) *)

Module Device.

Import String.
#[local] Open Scope string_scope.

(** A [GeolocationPosition]: [coords] and [timestamp]; [speed] and [heading]
    are [null] when the device cannot tell. *)
Record Position := mkPosition {
  latitude : float;
  longitude : float;
  accuracy : float;
  speed : option float;
  heading : option float;
  timestamp : Z
}.

(** The object built by the [watchPosition] and [getCurrentPosition]
    callbacks and emitted as ['sendLocation']. *)
Record Report := mkReport {
  r_lat : float;
  r_lng : float;
  r_timestamp : Z;
  r_accuracy : float;
  r_speed : float;
  r_heading : option float;
  r_deviceId : string
}.

(** Truthiness of a number: [0], [-0] and [NaN] are falsy. *)
Definition truthy (x : float) : bool := negb (x =? 0)%float && negb (is_nan x).

(** [x || 0] *)
Definition or_zero (x : option float) : float :=
  match x with
  | Some v => if truthy v then v else 0
  | None => 0
  end.

(** [x || undefined] *)
Definition or_undefined (x : option float) : option float :=
  match x with
  | Some v => if truthy v then Some v else None
  | None => None
  end.

Definition newLocation (position : Position) (sessionId : string) : Report :=
  {| r_lat := latitude position;
     r_lng := longitude position;
     r_timestamp := timestamp position;
     r_accuracy := accuracy position;
     r_speed := or_zero (speed position);
     r_heading := or_undefined (heading position);
     r_deviceId := sessionId |}.

(** The cells the sharing handlers read and write, and [sent], the
    ['sendLocation'] messages emitted on the socket so far, oldest first. *)
Record State := mkState {
  deviceMode : Display.Mode;
  isTracking : bool;
  watchIdRef : option Z;
  currentLocation : option Report;
  error : option string;
  sent : list Report
}.

(** [ToggleTracking id] and [GetCurrentLocation]: the two buttons of the
    tracker view, [id] being what [watchPosition] returns if it is called;
    [SwitchMode]: the button of both views; [WatchFix] and [WatchError]: the
    callbacks of the registered watch; [CurrentFix] and [CurrentError]: the
    callbacks of [getCurrentPosition]. *)
Inductive Event :=
  | ToggleTracking (id : Z)
  | GetCurrentLocation
  | SwitchMode
  | WatchFix (position : Position)
  | WatchError (message : string)
  | CurrentFix (position : Position)
  | CurrentError (message : string).

Section Handlers.

Variable sessionId : string.

(** Whether ["geolocation" in navigator]. *)
Variable geolocation : bool.

(** Whether [socketRef.current] is set. *)
Variable socket : bool.

Definition emit (r : Report) (s : State) : State :=
  mkState (deviceMode s) (isTracking s) (watchIdRef s) (currentLocation s)
          (error s) (sent s ++ [r]).

Definition setError (e : option string) (s : State) : State :=
  mkState (deviceMode s) (isTracking s) (watchIdRef s) (currentLocation s) e (sent s).

Definition setCurrentLocation (r : Report) (s : State) : State :=
  mkState (deviceMode s) (isTracking s) (watchIdRef s) (Some r) (error s) (sent s).

Definition toggleTracking (id : Z) (s : State) : State :=
  if isTracking s then
    mkState (deviceMode s) false None (currentLocation s) (error s) (sent s)
  else if geolocation then
    mkState (deviceMode s) true (Some id) (currentLocation s) (error s) (sent s)
  else setError (Some "Geolocation is not supported by your browser") s.

(** The success callback handed to [watchPosition]. *)
Definition onWatchFix (position : Position) (s : State) : State :=
  let r := newLocation position sessionId in
  let s1 := setCurrentLocation r s in
  let s2 := if socket then emit r s1 else s1 in
  setError None s2.

(** The success callback handed to [getCurrentPosition]; the button that
    asks for it exists in the tracker view only, so the [deviceMode] the
    callback has captured is ['tracker']. *)
Definition onCurrentFix (position : Position) (s : State) : State :=
  let r := newLocation position sessionId in
  let s1 := setCurrentLocation r s in
  let s2 := if socket then emit r s1 else s1 in
  setError None s2.

Definition getCurrentLocation (s : State) : State :=
  if geolocation then s
  else setError (Some "Geolocation is not supported by your browser") s.

(** [switchMode]; the ['register'] message it emits is not a location. *)
Definition switchMode (s : State) : State :=
  mkState (match deviceMode s with
           | Display.tracker => Display.display
           | Display.display => Display.tracker
           end)
          (isTracking s) (watchIdRef s) (currentLocation s) (error s) (sent s).

(** The two buttons of the tracker view do nothing while the display view is
    shown, and the browser calls the callbacks of a watch only while it is
    registered. *)
Definition step (e : Event) (s : State) : State :=
  match e with
  | ToggleTracking id =>
      match deviceMode s with
      | Display.tracker => toggleTracking id s
      | Display.display => s
      end
  | GetCurrentLocation =>
      match deviceMode s with
      | Display.tracker => getCurrentLocation s
      | Display.display => s
      end
  | SwitchMode => switchMode s
  | WatchFix position =>
      match watchIdRef s with
      | Some _ => onWatchFix position s
      | None => s
      end
  | WatchError message =>
      match watchIdRef s with
      | Some _ => setError (Some ("Error getting location: " ++ message)) s
      | None => s
      end
  | CurrentFix position => onCurrentFix position s
  | CurrentError message => setError (Some ("Error getting location: " ++ message)) s
  end.

Definition run (evs : list Event) (s : State) : State :=
  fold_left (fun st e => step e st) evs s.

End Handlers.

(** The page after mounting: display mode, not tracking. *)
Definition initial : State := mkState Display.display false None None None [].

(** The positions of the fixes among some events. *)
Fixpoint fixes (evs : list Event) : list Position :=
  match evs with
  | [] => []
  | WatchFix p :: rest => p :: fixes rest
  | CurrentFix p :: rest => p :: fixes rest
  | _ :: rest => fixes rest
  end.

(** Events other than the start/stop button. *)
Definition no_toggle (e : Event) : Prop :=
  match e with
  | ToggleTracking _ => False
  | _ => True
  end.

End Device.

(** A maps API whose [computeHeading] answers due south for every pair. *)
Definition dueSouth : option (LatLng -> LatLng -> float) :=
  Some (fun _ _ => 180).

(** Two samples as a display receives them, and a fix as a browser reports
    it while the device stands still: no speed, heading 0. *)
Definition sampleA : Display.DLocation :=
  Display.mkDLocation 18.4386 79.1288 1000 None.

Definition sampleB : Display.DLocation :=
  Display.mkDLocation 18.4 79.1 2000 None.

Definition fixAtRest : Device.Position :=
  Device.mkPosition 18.4386 79.1288 5 None (Some 0) 1000.

Definition sharing : Device.State :=
  Device.mkState Display.tracker true (Some 1%Z) None None [].

(** * Proofs *)

(** ** The embedding on sample values *)

Example Math_floor_samples :
  map Math_floor [2.5; 0.9999999999999999; 7; -0.5; -3; 0; -0; infinity; nan] =
  [JInt 2; JInt 0; JInt 7; JInt (-1); JInt (-3); JInt 0; JNegZero; JPosInf; JNaN].
Proof. reflexivity. Qed.

Example Z2F_samples :
  map Z2F [0; 1; 7; -3; 4294967295]%Z = [0; 1; 7; -3; 4294967295].
Proof. reflexivity. Qed.

Example slice_last_samples :
  slice_last 2 [1; 2; 3]%nat = [2; 3]%nat /\ slice_last 5 [1; 2; 3]%nat = [1; 2; 3]%nat.
Proof. split; reflexivity. Qed.

Example findCurrentSegment_samples :
  map (findCurrentSegment routePoints) [0; 0.14; 0.15; 0.5; 0.999; 1] =
  [JInt 0; JInt 0; JInt 1; JInt 3; JInt 6; JInt 6].
Proof. reflexivity. Qed.

(** The midpoint of the two-waypoint route Karimnagar - Hyderabad. *)
Example midpoint_of_two_waypoints :
  option_map (fun l => (loc_lat l, loc_lng l))
    (newLocationAt [mkLatLng 18.4386 79.1288; mkLatLng 17.3850 78.4867] None 0.5 0) =
  Some (17.9118, 78.80775).
Proof. reflexivity. Qed.

Example advance_samples :
  advance 0 = 0.001 /\ advance 0.001 = 0.002 /\ advance 0.9995 = 1 /\ advance 1 = 1.
Proof. repeat split. Qed.

(** ** Facts about the binary64 format ([SpecFloat]) *)

Module Binary64.

#[local] Open Scope Z_scope.

(** Number of binary digits. *)
Lemma digits2_pos_size (p : positive) : digits2_pos p = Pos.size p.
Proof. induction p; simpl; congruence. Qed.

Lemma Zdigits2_log2 (m : Z) : 0 < m -> Zdigits2 m = Z.log2 m + 1.
Proof.
  destruct m as [|p|p]; try lia. intros _. simpl.
  rewrite digits2_pos_size. destruct p; simpl; lia.
Qed.

Lemma Zdigits2_nonneg (m : Z) : 0 <= Zdigits2 m.
Proof. destruct m; simpl; lia. Qed.

Lemma Zdigits2_pos (m : Z) : 0 < m -> 1 <= Zdigits2 m.
Proof. destruct m; simpl; lia. Qed.

Lemma Zdigits2_bounds (m : Z) :
  0 < m -> 2 ^ (Zdigits2 m - 1) <= m < 2 ^ Zdigits2 m.
Proof.
  intros H. rewrite (Zdigits2_log2 m H).
  replace (Z.log2 m + 1 - 1) with (Z.log2 m) by lia.
  apply (Z.log2_spec m H).
Qed.

Lemma Zdigits2_unique (m d : Z) :
  1 <= d -> 2 ^ (d - 1) <= m < 2 ^ d -> Zdigits2 m = d.
Proof.
  intros Hd Hm.
  assert (0 < m) by (assert (0 < 2 ^ (d - 1)) by (apply Z.pow_pos_nonneg; lia); lia).
  rewrite Zdigits2_log2 by assumption.
  rewrite (Z.log2_unique m (d - 1)); try lia.
  replace (Z.succ (d - 1)) with d by lia. assumption.
Qed.

Lemma Zdigits2_succ (m : Z) : 0 <= m -> Zdigits2 (m + 1) <= Zdigits2 m + 1.
Proof.
  intros H. destruct (Z.eq_dec m 0) as [->|Hn]; [simpl; lia|].
  rewrite !Zdigits2_log2 by lia.
  pose proof (Z.log2_succ_le m). unfold Z.succ in *. lia.
Qed.

Lemma Zdigits2_shiftr (m k : Z) :
  0 < m -> 0 <= k -> k < Zdigits2 m ->
  0 < Z.shiftr m k /\ Zdigits2 (Z.shiftr m k) = Zdigits2 m - k.
Proof.
  intros Hm Hk Hlt. rewrite (Zdigits2_log2 m Hm) in *.
  assert (Hpos : 0 < Z.shiftr m k).
  { destruct (Z.shiftr_eq_0_iff m k) as [H1 _].
    pose proof (Z.shiftr_nonneg m k) as [_ H2]. specialize (H2 ltac:(lia)).
    destruct (Z.eq_dec (Z.shiftr m k) 0) as [E|E]; [|lia].
    destruct (H1 E) as [?|[? ?]]; lia. }
  split; [assumption|].
  rewrite Zdigits2_log2 by assumption. rewrite Z.log2_shiftr by assumption. lia.
Qed.

(** Right shifts of the rounding record. *)
Lemma shr_1_m (r : shr_record) :
  0 <= shr_m r -> shr_m (shr_1 r) = Z.shiftr (shr_m r) 1.
Proof.
  destruct r as [m b s]. simpl. intros H. rewrite <- Z.div2_spec.
  destruct m as [|[p|p|]|p]; simpl; try reflexivity; lia.
Qed.

Lemma iter_pos_shr_m (k : positive) (r : shr_record) :
  0 <= shr_m r ->
  shr_m (SpecFloat.iter_pos shr_1 k r) = Z.shiftr (shr_m r) (Zpos k).
Proof.
  revert r. induction k as [k IH|k IH|]; intros r H; simpl SpecFloat.iter_pos.
  - assert (H1 : 0 <= shr_m (shr_1 r)) by (rewrite shr_1_m by assumption; apply Z.shiftr_nonneg; assumption).
    rewrite IH.
    + rewrite IH by assumption. rewrite shr_1_m by assumption.
      rewrite !Z.shiftr_shiftr by lia. f_equal. lia.
    + rewrite IH by assumption. apply Z.shiftr_nonneg; assumption.
  - rewrite IH.
    + rewrite IH by assumption. rewrite !Z.shiftr_shiftr by lia. f_equal. lia.
    + rewrite IH by assumption. apply Z.shiftr_nonneg; assumption.
  - apply shr_1_m; assumption.
Qed.

Lemma shr_record_of_loc_m (m : Z) (l : location) :
  shr_m (shr_record_of_loc m l) = m.
Proof. destruct l as [|[| |]]; reflexivity. Qed.

(** [shr_fexp] shifts by [max 0 (fexp (digits m + e) - e)]. *)
Lemma shr_fexp_spec (m e : Z) (l : location) :
  0 <= m ->
  let k := Z.max 0 (fexp prec emax (Zdigits2 m + e) - e) in
  shr_m (fst (shr_fexp prec emax m e l)) = Z.shiftr m k /\
  snd (shr_fexp prec emax m e l) = e + k.
Proof.
  intros Hm k. unfold shr_fexp, shr. subst k.
  destruct (fexp prec emax (Zdigits2 m + e) - e) as [|p|p] eqn:E; simpl fst; simpl snd.
  - rewrite shr_record_of_loc_m. rewrite Z.shiftr_0_r. split; [reflexivity|lia].
  - rewrite iter_pos_shr_m by (rewrite shr_record_of_loc_m; assumption).
    rewrite shr_record_of_loc_m. split; [f_equal; lia | lia].
  - rewrite shr_record_of_loc_m. replace (Z.max 0 (Z.neg p)) with 0 by lia.
    rewrite Z.shiftr_0_r. split; [reflexivity|lia].
Qed.

Lemma round_nearest_even_bounds (m : Z) (l : location) :
  m <= round_nearest_even m l <= m + 1.
Proof.
  destruct l as [|[| |]]; simpl; try lia. destruct (Z.even m); lia.
Qed.


Lemma Zdigits2_shiftr_max (m k : Z) :
  0 <= m -> 0 <= k -> Zdigits2 (Z.shiftr m k) = Z.max 0 (Zdigits2 m - k).
Proof.
  intros Hm Hk. destruct (Z.eq_dec m 0) as [->|Hn].
  - rewrite Z.shiftr_0_l. simpl. lia.
  - destruct (Z_lt_le_dec k (Zdigits2 m)) as [Hlt|Hge].
    + destruct (Zdigits2_shiftr m k) as [_ ->]; lia.
    + rewrite Z.shiftr_eq_0; [simpl; lia | lia |].
      rewrite Zdigits2_log2 in Hge by lia. lia.
Qed.

(** What [binary_round_aux] can return for a non-negative mantissa: a zero,
    a finite number or an infinity of the given sign, never a NaN; with a
    bound on the exponent, and a non-zero result in the normal range. *)
Lemma binary_round_aux_spec (s : bool) (m e : Z) (l : location) :
  0 <= m ->
  exists m2 e2,
    binary_round_aux prec emax s m e l = rounded s m2 e2 /\
    0 <= m2 /\
    e2 <= Z.max (Z.max e (-1074)) (Zdigits2 m + e - 52) /\
    (0 < m -> -1074 <= Zdigits2 m + e - 53 -> 0 < m2).
Proof.
  intros Hm. unfold binary_round_aux.
  pose proof (shr_fexp_spec m e l Hm) as [Hm1 He1].
  destruct (shr_fexp prec emax m e l) as [mrs1 e1]. simpl fst in Hm1; simpl snd in He1.
  set (r := round_nearest_even (shr_m mrs1) (loc_of_shr_record mrs1)).
  assert (Hm1pos : 0 <= shr_m mrs1) by (rewrite Hm1; apply Z.shiftr_nonneg; assumption).
  pose proof (round_nearest_even_bounds (shr_m mrs1) (loc_of_shr_record mrs1)) as Hr.
  fold r in Hr.
  assert (Hr0 : 0 <= r) by lia.
  pose proof (shr_fexp_spec r e1 loc_Exact Hr0) as [Hm2 He2].
  destruct (shr_fexp prec emax r e1 loc_Exact) as [mrs2 e2]. simpl fst in Hm2; simpl snd in He2.
  exists (shr_m mrs2), e2. split; [reflexivity|].
  assert (Hd1 : Zdigits2 (shr_m mrs1) = Z.max 0 (Zdigits2 m - Z.max 0 (fexp prec emax (Zdigits2 m + e) - e))).
  { rewrite Hm1. apply Zdigits2_shiftr_max; lia. }
  assert (Hdr : Zdigits2 (shr_m mrs1) <= Zdigits2 r <= Zdigits2 (shr_m mrs1) + 1).
  { assert (Hc : r = shr_m mrs1 \/ r = shr_m mrs1 + 1) by lia.
    destruct Hc as [-> | ->]; [lia|].
    split; [|apply Zdigits2_succ; assumption].
    destruct (Z.eq_dec (shr_m mrs1) 0) as [E0|E0].
    - rewrite E0. simpl. lia.
    - rewrite !Zdigits2_log2 by lia.
      pose proof (Z.log2_le_mono (shr_m mrs1) (shr_m mrs1 + 1)). lia. }
  pose proof (Zdigits2_nonneg m) as Hdm.
  unfold fexp, SpecFloat.emin, prec, emax in *.
  change IntDef.Z.max with Z.max in *.
  split; [rewrite Hm2; apply Z.shiftr_nonneg; assumption|].
  split; [lia|].
  intros Hpos Hnorm.
  pose proof (Zdigits2_pos m Hpos) as Hd.
  assert (Hp1 : 0 < shr_m mrs1).
  { rewrite Hm1. apply Zdigits2_shiftr; lia. }
  assert (Hrpos : 0 < r) by lia.
  pose proof (Zdigits2_pos r Hrpos) as Hdr1.
  rewrite Hm2. apply Zdigits2_shiftr; lia.
Qed.


Lemma Zdigits2_le (a b : Z) : 0 <= a -> a <= b -> Zdigits2 a <= Zdigits2 b.
Proof.
  intros Ha Hab. destruct (Z.eq_dec a 0) as [->|Hn].
  - apply Zdigits2_nonneg.
  - rewrite !Zdigits2_log2 by lia.
    pose proof (Z.log2_le_mono a b Hab). lia.
Qed.

(** A mantissa that is already in canonical position is returned as it is. *)
Lemma binary_round_aux_canonical (s : bool) (m : positive) (e : Z) :
  Zdigits2 (Zpos m) = 53 -> -1074 <= e <= 971 ->
  binary_round_aux prec emax s (Zpos m) e loc_Exact = S754_finite s m e.
Proof.
  intros Hd He. unfold binary_round_aux, shr_fexp.
  assert (E : fexp prec emax (Zdigits2 (Zpos m) + e) - e = 0).
  { rewrite Hd. unfold fexp, SpecFloat.emin, prec, emax.
    change IntDef.Z.max with Z.max. lia. }
  rewrite E. cbn -[Z.leb Z.sub Zdigits2 fexp].
  change (Z.pos (digits2_pos m)) with (Zdigits2 (Zpos m)).
  rewrite E. cbn -[Z.leb Z.sub].
  destruct (Z.leb_spec e (emax - prec)) as [_|H]; [reflexivity|].
  unfold emax, prec in H. lia.
Qed.

Lemma digits2_pos_iter_xO (p k : positive) :
  Zpos (digits2_pos (Pos.iter xO p k)) = Zpos (digits2_pos p) + Zpos k.
Proof.
  induction k as [|k IH] using Pos.peano_ind.
  - simpl. lia.
  - rewrite Pos.iter_succ. simpl digits2_pos. lia.
Qed.

(** An integer in [[1, 2^53)] converts exactly: the result is positive and
    finite, with a 53-digit mantissa. *)
Lemma binary_round_integer (p : positive) :
  Zdigits2 (Zpos p) <= 53 ->
  exists m, binary_round prec emax false p 0 =
              S754_finite false m (Zdigits2 (Zpos p) - 53) /\
            Zdigits2 (Zpos m) = 53.
Proof.
  intros Hd. unfold binary_round, shl_align.
  assert (E : fexp prec emax (Z.pos (digits2_pos p) + 0) - 0 = Zdigits2 (Zpos p) - 53).
  { unfold fexp, SpecFloat.emin, prec, emax. change IntDef.Z.max with Z.max.
    simpl Zdigits2 in *. lia. }
  assert (E' : fexp prec emax (Z.pos (digits2_pos p) + 0) = Zdigits2 (Zpos p) - 53) by lia.
  rewrite E. pose proof (Zdigits2_pos (Zpos p) ltac:(lia)) as H1.
  destruct (Zdigits2 (Zpos p) - 53) as [|k|k] eqn:Ek; try lia.
  - exists p. split; [|lia].
    apply binary_round_aux_canonical; lia.
  - rewrite E'. exists (Pos.iter xO p k). 
    assert (Hk : Zdigits2 (Zpos (Pos.iter xO p k)) = 53).
    { simpl Zdigits2. rewrite digits2_pos_iter_xO. simpl Zdigits2 in Ek. lia. }
    split; [|assumption].
    apply binary_round_aux_canonical; [assumption|lia].
Qed.


Lemma Prim2SF_Z2F (n : Z) :
  1 <= n < 2 ^ 53 ->
  exists m, Prim2SF (Z2F n) = S754_finite false m (Zdigits2 n - 53) /\
            Zdigits2 (Zpos m) = 53.
Proof.
  intros Hn. destruct n as [|p|p]; try lia. unfold Z2F, binary_normalize.
  assert (Hd : Zdigits2 (Zpos p) <= 53).
  { destruct (Z_le_gt_dec (Zdigits2 (Zpos p)) 53) as [H|H]; [assumption|].
    pose proof (Zdigits2_bounds (Zpos p) ltac:(lia)) as [Hlo _].
    assert (2 ^ 53 <= 2 ^ (Zdigits2 (Z.pos p) - 1)) by (apply Z.pow_le_mono_r; lia).
    lia. }
  destruct (binary_round_integer p Hd) as (m & -> & Hm).
  exists m. split; [|exact Hm].
  apply Prim2SF_SF2Prim. unfold valid_binary, bounded, canonical_mantissa.
  pose proof (Zdigits2_pos (Zpos p) ltac:(lia)) as H1.
  apply andb_true_iff. split.
  - apply Z.eqb_eq. change (Z.pos (digits2_pos m)) with (Zdigits2 (Zpos m)). rewrite Hm.
    unfold fexp, SpecFloat.emin, prec, emax. change IntDef.Z.max with Z.max. lia.
  - apply Z.leb_le. unfold emax, prec. lia.
Qed.

Lemma one_SF : Prim2SF 1 = S754_finite false 4503599627370496 (-52).
Proof. reflexivity. Qed.

(** The share of one segment, [1 / n], is a positive finite number for every
    segment count [n] in [[1, 2^53)]. *)
Lemma Prim2SF_reciprocal (n : Z) :
  1 <= n < 2 ^ 53 ->
  exists m e, Prim2SF (1 / Z2F n) = S754_finite false m e.
Proof.
  intros Hn. destruct (Prim2SF_Z2F n Hn) as (my & Hy & Hdy).
  rewrite FloatAxioms.div_spec, Hy, one_SF. unfold SF64div, SFdiv, SFdiv_core_binary.
  set (ey := Zdigits2 n - 53) in *.
  assert (Hey : -52 <= ey <= 0).
  { subst ey. pose proof (Zdigits2_pos n ltac:(lia)).
    destruct (Z_le_gt_dec (Zdigits2 n) 53) as [H1|H1]; [lia|].
    pose proof (Zdigits2_bounds n ltac:(lia)) as [Hlo _].
    assert (2 ^ 53 <= 2 ^ (Zdigits2 n - 1)) by (apply Z.pow_le_mono_r; lia).
    lia. }
  rewrite Hdy. change (Zdigits2 4503599627370496) with 53.
  assert (E : IntDef.Z.min (fexp prec emax (53 + -52 - (53 + ey))) (-52 - ey) = -105 - ey).
  { unfold fexp, SpecFloat.emin, prec, emax.
    change IntDef.Z.max with Z.max. change IntDef.Z.min with Z.min. lia. }
  rewrite E. replace (-52 - ey - (-105 - ey)) with 53 by lia.
  cbv iota beta.
  change (IntDef.Z.shiftl 4503599627370496 53) with (2 ^ 105).
  change IntDef.Z.div_eucl with Z.div_eucl.
  pose proof (Zdigits2_bounds (Zpos my) ltac:(lia)) as [Hlo Hhi]. rewrite Hdy in Hlo, Hhi.
  pose proof (Z.div_eucl_eq (2 ^ 105) (Zpos my) ltac:(lia)) as Hdiv.
  pose proof (Z.mod_pos_bound (2 ^ 105) (Zpos my) ltac:(lia)) as Hmod.
  unfold Z.modulo in Hmod.
  destruct (Z.div_eucl (2 ^ 105) (Z.pos my)) as [q r].
  assert (Hq : 0 < q <= 2 ^ 105) by nia.
  destruct (binary_round_aux_spec (xorb false false) q (-105 - ey) (new_location (Z.pos my) r))
    as (m2 & e2 & Heq & Hm2 & He2 & Hnz); [lia|].
  rewrite Heq. pose proof (Zdigits2_pos q ltac:(lia)) as Hdq.
  pose proof (Zdigits2_le q (2 ^ 105) ltac:(lia) ltac:(lia)) as Hdq'.
  change (Zdigits2 (2 ^ 105)) with 106 in Hdq'.
  specialize (Hnz ltac:(lia) ltac:(lia)).
  unfold rounded. destruct m2 as [|p2|p2]; try lia.
  destruct (Z.leb_spec e2 (emax - prec)) as [_|H]; [eauto|].
  unfold emax, prec in H. lia.
Qed.

End Binary64.

Import Binary64.

(** ** Segment resolution *)

Lemma zero_SF : Prim2SF 0 = S754_zero false.
Proof. reflexivity. Qed.

Lemma leb_zero_shape (p : float) :
  (0 <=? p) = true -> nonneg_number (Prim2SF p).
Proof.
  rewrite FloatAxioms.leb_spec, zero_SF. unfold SFleb, SFcompare.
  destruct (Prim2SF p) as [s|s| |s m e]; try destruct s; simpl; intros H;
    try exact I; discriminate.
Qed.

Lemma leb_one_shape (p : float) :
  (p <=? 1) = true -> nonneg_number (Prim2SF p) -> nonneg_finite (Prim2SF p).
Proof.
  rewrite FloatAxioms.leb_spec, one_SF. unfold SFleb, SFcompare.
  destruct (Prim2SF p) as [s|s| |s m e]; try destruct s; intros H H';
    try exact I; try contradiction H'; discriminate H.
Qed.

Lemma unit_interval_shape (p : float) :
  unit_interval p -> nonneg_finite (Prim2SF p).
Proof.
  intros [H0 H1]. apply leb_one_shape; [assumption|]. apply leb_zero_shape; assumption.
Qed.

(** A number in [[0, 1]] divided by a positive finite number is zero, positive
    or [+Infinity]. *)
Lemma SFdiv_nonneg (x : spec_float) (m : positive) (e : Z) :
  nonneg_finite x -> nonneg_number (SFdiv prec emax x (S754_finite false m e)).
Proof.
  destruct x as [s|s| |s mx ex]; simpl; try contradiction.
  - intros _. exact I.
  - destruct s; [contradiction|]. intros _.
    unfold SFdiv_core_binary.
    set (e' := IntDef.Z.min _ _). set (m' := match (ex - e - e')%Z with 0%Z => _ | _ => _ end).
    assert (Hm' : (0 <= m')%Z).
    { subst m'. destruct (ex - e - e')%Z; try lia.
      change IntDef.Z.shiftl with Z.shiftl. apply Z.shiftl_nonneg. lia. }
    change IntDef.Z.div_eucl with Z.div_eucl.
    pose proof (Z.div_pos m' (Zpos m) Hm' ltac:(lia)) as Hq. unfold Z.div in Hq.
    destruct (Z.div_eucl m' (Z.pos m)) as [q r].
    cbv beta iota. change (xorb false false) with false.
    destruct (binary_round_aux_spec false q e' (new_location (Z.pos m) r) Hq)
      as (m2 & e2 & -> & Hm2 & _).
    unfold rounded. destruct m2 as [|p2|p2]; try lia; [exact I|].
    destruct (e2 <=? emax - prec)%Z; exact I.
Qed.

Lemma Math_floor_nonneg (x : float) :
  nonneg_number (Prim2SF x) ->
  (exists k, (0 <= k)%Z /\ Math_floor x = JInt k) \/ Math_floor x = JNegZero \/
  Math_floor x = JPosInf.
Proof.
  unfold Math_floor. destruct (Prim2SF x) as [s|s| |s m e]; simpl; try contradiction.
  - destruct s; [right; left; reflexivity | left; exists 0%Z; split; [lia|reflexivity]].
  - destruct s; [contradiction | right; right; reflexivity].
  - destruct s; [contradiction|]. intros _. left. eexists; split; [|reflexivity].
    apply Z.shiftl_nonneg. lia.
Qed.

Section Segments.

Variable route : list LatLng.
Hypothesis Hroute : route_ok route.

Lemma progressPerSegment_finite :
  exists m e, Prim2SF (1 / Z2F (routeLength route - 1)) = S754_finite false m e.
Proof.
  apply Prim2SF_reciprocal. destruct Hroute as [H2 H53]. unfold routeLength. lia.
Qed.

(** The segment index is an index between 0 and N-2. *)
Lemma findCurrentSegment_range (p : float) :
  unit_interval p ->
  exists i : nat, toIndex (findCurrentSegment route p) = Some i /\
                  (i <= length route - 2)%nat.
Proof.
  intros Hp. destruct Hroute as [H2 H53]. unfold findCurrentSegment.
  destruct (1 <=? p).
  - exists (length route - 2)%nat. split; [|lia]. unfold toIndex, routeLength.
    destruct (Z.ltb_spec (Z.of_nat (length route) - 2) 0); [lia|].
    f_equal. lia.
  - destruct progressPerSegment_finite as (m & e & Hpps).
    assert (Hx : nonneg_number (Prim2SF (p / (1 / Z2F (routeLength route - 1))))).
    { rewrite FloatAxioms.div_spec, Hpps. apply SFdiv_nonneg. apply unit_interval_shape; assumption. }
    cbv zeta.
    destruct (Math_floor_nonneg _ Hx) as [(k & Hk & ->) | [-> | ->]]; simpl;
      unfold routeLength.
    + destruct (Z.ltb_spec (Z.min k (Z.of_nat (length route) - 1 - 1)) 0); [lia|].
      eexists; split; [reflexivity|lia].
    + destruct (Z.ltb_spec (Z.of_nat (length route) - 1 - 1) 0); [lia|].
      exists 0%nat. split; [reflexivity|lia].
    + destruct (Z.ltb_spec (Z.of_nat (length route) - 1 - 1) 0); [lia|].
      eexists; split; [reflexivity|lia].
Qed.

Lemma toIndex_succ (a : jsint) (i : nat) :
  toIndex a = Some i -> toIndex (succ a) = Some (S i).
Proof.
  destruct a as [z| | | |]; simpl; try discriminate.
  - destruct (Z.ltb_spec z 0); [discriminate|]. intros [= <-].
    destruct (Z.ltb_spec (z + 1) 0); [lia|]. f_equal. lia.
  - intros [= <-]. reflexivity.
Qed.

(** Both endpoint lookups of the resolved segment succeed. *)
Lemma endpoints_defined (p : float) :
  unit_interval p ->
  exists i p1 p2,
    toIndex (findCurrentSegment route p) = Some i /\
    (i <= length route - 2)%nat /\
    index route (findCurrentSegment route p) = Some p1 /\
    index route (succ (findCurrentSegment route p)) = Some p2 /\
    nth_error route i = Some p1 /\ nth_error route (S i) = Some p2.
Proof.
  intros Hp. destruct (findCurrentSegment_range p Hp) as (i & Hi & Hle).
  destruct Hroute as [H2 _].
  destruct (nth_error route i) as [p1|] eqn:E1.
  2:{ apply nth_error_None in E1. lia. }
  destruct (nth_error route (S i)) as [p2|] eqn:E2.
  2:{ apply nth_error_None in E2. lia. }
  exists i, p1, p2. unfold index. rewrite (toIndex_succ _ _ Hi), Hi.
  repeat split; assumption || reflexivity.
Qed.

End Segments.

(** ** The progress values of a session *)

Lemma advance_one : advance 1 = 1.
Proof. vm_compute. reflexivity. Qed.

Lemma progressAfter_1000 : progressAfter 1000 = 1.
Proof. vm_compute. reflexivity. Qed.

Lemma progressAfter_clamped (k : nat) :
  (1000 <= k)%nat -> progressAfter k = 1.
Proof.
  induction 1 as [|k _ IH]; [exact progressAfter_1000|].
  simpl. rewrite IH. exact advance_one.
Qed.

Lemma ticks_checked : forallb tick_check (seq 0 1000) = true.
Proof. vm_compute. reflexivity. Qed.

Lemma tick_checked (k : nat) : (k < 1000)%nat -> tick_check k = true.
Proof.
  intros H. pose proof ticks_checked as Hall. rewrite forallb_forall in Hall.
  apply Hall. apply in_seq. lia.
Qed.

Lemma progress_changes (k : nat) :
  (k < 1000)%nat -> Object_is (progressAfter k) (progressAfter (S k)) = false.
Proof.
  intros H. pose proof (tick_checked k H) as Hc. unfold tick_check in Hc.
  rewrite !andb_true_iff, negb_true_iff in Hc. tauto.
Qed.

Lemma progress_increases (k : nat) :
  (k < 1000)%nat -> (progressAfter k <? progressAfter (S k)) = true.
Proof.
  intros H. pose proof (tick_checked k H) as Hc. unfold tick_check in Hc.
  rewrite !andb_true_iff in Hc. tauto.
Qed.


Lemma progress_unit (k : nat) : unit_interval (progressAfter k).
Proof.
  destruct (Nat.lt_ge_cases k 1000) as [H|H].
  - pose proof (tick_checked k H) as Hc. unfold tick_check in Hc.
    rewrite !andb_true_iff in Hc. split; tauto.
  - rewrite progressAfter_clamped by lia. split; reflexivity.
Qed.

Lemma Object_is_refl (x : float) : Object_is x x = true.
Proof. apply Leibniz.eqb_spec. reflexivity. Qed.

Lemma Object_is_eq (x y : float) : Object_is x y = true -> x = y.
Proof. apply Leibniz.eqb_spec. Qed.

#[local] Arguments Object_is : simpl never.

(** ** One step of the component *)

Section Steps.

Variable route : list LatLng.
Variable google : option (LatLng -> LatLng -> float).


Lemma newLocationAt_defined (p : float) (t : Z) :
  route_ok route -> unit_interval p ->
  exists l, newLocationAt route google p t = Some l /\ timestamp l = t.
Proof.
  intros Hr Hp.
  destruct (endpoints_defined route Hr p Hp) as (i & p1 & p2 & _ & _ & H1 & H2 & _).
  unfold newLocationAt. rewrite H1, H2. eexists; split; reflexivity.
Qed.

(** "Stop": only the pending frame is cancelled. *)
Lemma step_stop (s : Tracker) :
  isConnected s = true ->
  step route google ClickConnect s = Some (cancelAnimationFrame (setIsConnected false s)).
Proof.
  destruct s as [c p h tl a lf t]. simpl. intros ->.
  unfold step, flush, connectToTracker, commit, startStopEffect, updateTargetEffect.
  simpl. rewrite ?Object_is_refl. reflexivity.
Qed.

(** "Start": the update-target effect of the same commit still reads the
    progress of the render that was committed, so its sample is appended after
    the history was cleared; when the reset changes the progress, the effect
    runs once more, for progress 0. *)
Lemma step_start (s : Tracker) (l0 l1 : Location) :
  isConnected s = false ->
  newLocationAt route google (progress s) (now s) = Some l0 ->
  newLocationAt route google 0 (now s) = Some l1 ->
  step route google ClickConnect s =
    Some {| isConnected := true;
            progress := 0;
            locationHistory := if Object_is (progress s) 0 then [l0] else [l0; l1];
            targetLocation := Some (if Object_is (progress s) 0 then l0 else l1);
            animationRef := Some (S (lastFrame s));
            lastFrame := S (lastFrame s);
            now := now s |}.
Proof.
  destruct s as [c p h tl a lf t]. simpl. intros -> H0 H1.
  unfold step, flush, connectToTracker, commit, startStopEffect, updateTargetEffect.
  simpl. rewrite H0. simpl.
  destruct (Object_is p 0) eqn:E; simpl; rewrite ?H1; reflexivity.
Qed.


(** A frame that changes the progress appends the sample for the new value. *)
Lemma step_frame_tick (s : Tracker) (f : nat) (l : Location) :
  isConnected s = true ->
  animationRef s = Some f ->
  Object_is (progress s) (advance (progress s)) = false ->
  newLocationAt route google (advance (progress s)) (now s) = Some l ->
  step route google AnimationFrame s =
    Some {| isConnected := true;
            progress := advance (progress s);
            locationHistory := locationHistory s ++ [l];
            targetLocation := Some l;
            animationRef := Some (S (lastFrame s));
            lastFrame := S (lastFrame s);
            now := now s |}.
Proof.
  destruct s as [c p h tl a lf t]. simpl. intros -> -> E H.
  unfold step, flush, animateAlongRoute, commit, startStopEffect, updateTargetEffect.
  simpl. rewrite E. simpl. rewrite H. simpl. rewrite ?Object_is_refl. reflexivity.
Qed.

(** A frame that leaves the progress as it is runs no effect. *)
Lemma step_frame_still (s : Tracker) (f : nat) :
  animationRef s = Some f ->
  Object_is (progress s) (advance (progress s)) = true ->
  step route google AnimationFrame s = Some (requestAnimationFrame s).
Proof.
  destruct s as [c p h tl a lf t]. simpl. intros -> E.
  pose proof (Object_is_eq _ _ E) as Ep.
  unfold step, flush, animateAlongRoute, commit, startStopEffect, updateTargetEffect.
  simpl. rewrite E, ?eqb_reflx. simpl. rewrite ?eqb_reflx, ?Object_is_refl. simpl.
  unfold requestAnimationFrame. simpl. rewrite <- Ep. reflexivity.
Qed.

(** No frame is pending: nothing runs. *)
Lemma step_frame_none (s : Tracker) :
  animationRef s = None -> step route google AnimationFrame s = Some s.
Proof. intros H. unfold step. rewrite H. reflexivity. Qed.

(** A commit whose render has the dependencies of the previous one runs no
    effect: after [flush] the component is at rest. *)
Lemma commit_settled (prev cur : Tracker) :
  isConnected prev = isConnected cur -> progress prev = progress cur ->
  commit route google prev cur = Some cur.
Proof.
  intros H1 H2. unfold commit. rewrite H1, H2, eqb_reflx, Object_is_refl. reflexivity.
Qed.

End Steps.

(** ** Sessions *)

Lemma no_click_cons (e : Event) (evs : list Event) :
  no_click (e :: evs) -> e <> ClickConnect /\ no_click evs.
Proof. intros H. inversion H; subst. split; assumption. Qed.

Lemma run_app (route : list LatLng) (google : option (LatLng -> LatLng -> float))
    (evs1 evs2 : list Event) (s s1 : Tracker) :
  run route google evs1 s = Some s1 ->
  run route google (evs1 ++ evs2) s = run route google evs2 s1.
Proof.
  revert s. induction evs1 as [|e evs1 IH]; simpl; intros s H.
  - injection H as ->. reflexivity.
  - destruct (step route google e s) as [s'|]; [|discriminate]. apply IH; assumption.
Qed.

(** While idle with no frame pending, nothing but the clock changes. *)
Lemma idle_run (route : list LatLng) (google : option (LatLng -> LatLng -> float))
    (evs : list Event) (s : Tracker) :
  isConnected s = false -> animationRef s = None -> no_click evs ->
  exists s', run route google evs s = Some s' /\
             isConnected s' = false /\ animationRef s' = None /\
             progress s' = progress s /\
             locationHistory s' = locationHistory s /\
             targetLocation s' = targetLocation s /\
             (now s <= now s')%Z.
Proof.
  revert s. induction evs as [|e evs IH]; intros s Hc Ha Hn.
  - exists s. simpl. repeat split; try assumption; try reflexivity; lia.
  - apply no_click_cons in Hn as [He Hn]. destruct e as [| |dt]; [congruence| |].
    + cbn [run]. rewrite (step_frame_none route google s Ha). apply IH; assumption.
    + cbn [run]. destruct (IH (elapse dt s) Hc Ha Hn) as (s' & Hr & H1 & H2 & H3 & H4 & H5 & H6).
      exists s'. simpl in *. repeat split; try assumption. lia.
Qed.

(** C7.  The "stop" command ([connectToTracker] while connected) only cancels
    the pending animation frame: Progress, the sample history and the target
    are those of the state it was issued in, and they stay so through every
    later sequence of frames and clock advances, that is until the next
    click. *)
Theorem stop_retains_progress_and_history
    (route : list LatLng) (google : option (LatLng -> LatLng -> float))
    (s : Tracker) (evs : list Event) :
  isConnected s = true -> no_click evs ->
  exists s', run route google (ClickConnect :: evs) s = Some s' /\
             isConnected s' = false /\ animationRef s' = None /\
             progress s' = progress s /\
             locationHistory s' = locationHistory s /\
             targetLocation s' = targetLocation s.
Proof.
  intros Hc Hn. cbn [run]. rewrite (step_stop route google s Hc).
  destruct (idle_run route google evs (cancelAnimationFrame (setIsConnected false s)))
    as (s' & Hr & H1 & H2 & H3 & H4 & H5 & _); try reflexivity; try assumption.
  exists s'. repeat split; assumption.
Qed.

(** Once clamped, a frame changes nothing but the frame handle. *)
Lemma clamped_step (route : list LatLng) (google : option (LatLng -> LatLng -> float))
    (e : Event) (s : Tracker) :
  progress s = 1 -> e <> ClickConnect ->
  exists s', step route google e s = Some s' /\ progress s' = 1 /\
             locationHistory s' = locationHistory s.
Proof.
  intros Hp He. destruct e as [| |dt]; [congruence| |].
  - destruct (animationRef s) as [f|] eqn:Ha.
    + rewrite (step_frame_still route google s f Ha).
      * exists (requestAnimationFrame s). repeat split. exact Hp.
      * rewrite Hp, advance_one. apply Object_is_refl.
    + rewrite (step_frame_none route google s Ha). exists s. repeat split. exact Hp.
  - exists (elapse dt s). repeat split. exact Hp.
Qed.

(** C2.  Once Progress is 1.0 it stays exactly 1.0, and so never exceeds 1.0,
    through every further sequence of ticks (frames), whatever their number
    and however the clock advances in between. *)
Theorem progress_stays_clamped
    (route : list LatLng) (google : option (LatLng -> LatLng -> float))
    (s : Tracker) (evs : list Event) :
  progress s = 1 -> no_click evs ->
  exists s', run route google evs s = Some s' /\
             progress s' = 1 /\ (1 <? progress s') = false.
Proof.
  revert s. induction evs as [|e evs IH]; intros s Hp Hn.
  - exists s. simpl. rewrite Hp. repeat split.
  - apply no_click_cons in Hn as [He Hn].
    destruct (clamped_step route google e s Hp He) as (s1 & Hs & Hp1 & _).
    cbn [run]. rewrite Hs. apply IH; assumption.
Qed.

(** Every reachable progress value is the value after some number of ticks
    from 0. *)
Lemma step_progress (route : list LatLng) (google : option (LatLng -> LatLng -> float))
    (e : Event) (s s' : Tracker) :
  (exists k, progress s = progressAfter k) ->
  step route google e s = Some s' ->
  exists k, progress s' = progressAfter k.
Proof.
  intros [k Hk] Hs. destruct s as [c p h tl a lf t]. simpl in Hk. subst p.
  destruct e as [| |dt].
  - unfold step, flush, connectToTracker, commit, startStopEffect, updateTargetEffect in Hs.
    destruct c; simpl in Hs.
    + rewrite ?Object_is_refl in Hs. simpl in Hs. injection Hs as <-. exists k. reflexivity.
    + destruct (newLocationAt route google (progressAfter k) t); [|discriminate].
      simpl in Hs. destruct (Object_is (progressAfter k) 0); simpl in Hs.
      * injection Hs as <-. exists 0%nat. reflexivity.
      * destruct (newLocationAt route google 0 t); [|discriminate].
        injection Hs as <-. exists 0%nat. reflexivity.
  - unfold step in Hs. simpl in Hs. destruct a as [f|].
    + unfold flush, animateAlongRoute, commit, startStopEffect, updateTargetEffect in Hs.
      simpl in Hs. rewrite eqb_reflx in Hs. simpl in Hs.
      destruct (Object_is (progressAfter k) (advance (progressAfter k))); simpl in Hs.
      * rewrite ?eqb_reflx, ?Object_is_refl in Hs. simpl in Hs.
        injection Hs as <-. exists (S k). reflexivity.
      * destruct c; simpl in Hs.
        -- destruct (newLocationAt route google (advance (progressAfter k)) t); [|discriminate].
           simpl in Hs. rewrite ?Object_is_refl in Hs. simpl in Hs.
           injection Hs as <-. exists (S k). reflexivity.
        -- rewrite ?Object_is_refl in Hs. simpl in Hs.
           injection Hs as <-. exists (S k). reflexivity.
    + injection Hs as <-. exists k. reflexivity.
  - injection Hs as <-. exists k. reflexivity.
Qed.

Lemma reachable_progress (route : list LatLng) (google : option (LatLng -> LatLng -> float))
    (s : Tracker) :
  reachable route google s -> exists k, progress s = progressAfter k.
Proof.
  intros (t & evs & Hr).
  assert (H0 : exists k, progress (mount t) = progressAfter k) by (exists 0%nat; reflexivity).
  revert Hr H0. generalize (mount t). induction evs as [|e evs IH]; intros s0 Hr H0.
  - injection Hr as <-. exact H0.
  - simpl in Hr. destruct (step route google e s0) as [s1|] eqn:Hs; [|discriminate].
    apply (IH s1 Hr). apply (step_progress route google e s0 s1 H0 Hs).
Qed.




#[local] Arguments progressAfter : simpl never.

(** ** The history of a session *)

Lemma sorted_snoc (l : list Z) (x : Z) :
  Sorted Z.le l -> Forall (fun y => (y <= x)%Z) l -> Sorted Z.le (l ++ [x]).
Proof.
  induction l as [|a l IH]; simpl; intros Hs Hf.
  - repeat constructor.
  - inversion Hs as [|? ? Hs' Hd]; subst. inversion Hf as [|? ? Ha Hf']; subst.
    constructor; [apply IH; assumption|].
    destruct l as [|b l]; simpl; constructor.
    + exact Ha.
    + inversion Hd; subst. assumption.
Qed.

Lemma ascending_snoc (h : list Location) (l : Location) :
  ascending h -> Forall (fun x => (timestamp x <= timestamp l)%Z) h ->
  ascending (h ++ [l]).
Proof.
  unfold ascending. intros Hs Hf. rewrite map_app. simpl.
  apply sorted_snoc; [assumption|]. apply Forall_map. exact Hf.
Qed.

Lemma frames_cons_frame (evs : list Event) :
  frames (AnimationFrame :: evs) = S (frames evs).
Proof. reflexivity. Qed.

Lemma frames_cons_elapse (dt : nat) (evs : list Event) :
  frames (Elapse dt :: evs) = frames evs.
Proof. reflexivity. Qed.

Section History.

Variable route : list LatLng.
Variable google : option (LatLng -> LatLng -> float).
Hypothesis Hroute : route_ok route.

(** The invariant of a running session, [j] ticks after its start left the
    history [h1]: the history is [h1] followed by one sample per tick that
    changed the progress. *)
Lemma session_run (h1 : list Location) (evs : list Event) :
  no_click evs ->
  forall (j : nat) (s : Tracker) (samples : list Location),
  isConnected s = true ->
  (exists f, animationRef s = Some f) ->
  progress s = progressAfter j ->
  locationHistory s = h1 ++ samples ->
  length samples = Nat.min j 1000 ->
  (forall i l, nth_error samples i = Some l ->
     newLocationAt route google (progressAfter (S i)) (timestamp l) = Some l) ->
  ascending (locationHistory s) ->
  Forall (fun l => (timestamp l <= now s)%Z) (locationHistory s) ->
  exists s' samples',
    run route google evs s = Some s' /\
    isConnected s' = true /\
    progress s' = progressAfter (j + frames evs) /\
    locationHistory s' = h1 ++ samples' /\
    length samples' = Nat.min (j + frames evs) 1000 /\
    (forall i l, nth_error samples' i = Some l ->
       newLocationAt route google (progressAfter (S i)) (timestamp l) = Some l) /\
    ascending (locationHistory s').
Proof.
  induction evs as [|e evs IH]; intros Hn j s samples Hc Ha Hp Hh Hlen Hnth Hasc Hnow.
  - exists s, samples. simpl. rewrite Nat.add_0_r. repeat split; assumption.
  - apply no_click_cons in Hn as [He Hn]. destruct e as [| |dt]; [congruence| |].
    + (* a frame *)
      destruct Ha as [f Ha]. rewrite frames_cons_frame. cbn [run].
      replace (j + S (frames evs))%nat with (S j + frames evs)%nat by lia.
      destruct (Nat.lt_ge_cases j 1000) as [Hj|Hj].
      * (* the tick changes the progress *)
        assert (E : Object_is (progress s) (advance (progress s)) = false).
        { rewrite Hp. apply (progress_changes j Hj). }
        destruct (newLocationAt_defined route google (advance (progress s)) (now s) Hroute)
          as (l & Hl & Ht).
        { rewrite Hp. apply (progress_unit (S j)). }
        rewrite (step_frame_tick route google s f l Hc Ha E Hl).
        apply (IH Hn (S j) _ (samples ++ [l])); simpl.
        -- reflexivity.
        -- eexists; reflexivity.
        -- rewrite Hp. reflexivity.
        -- rewrite Hh, app_assoc. reflexivity.
        -- rewrite length_app, Hlen. simpl. lia.
        -- intros i l' Hi. destruct (Nat.lt_ge_cases i (length samples)) as [Hlt|Hge].
           ++ rewrite nth_error_app1 in Hi by assumption. apply Hnth; assumption.
           ++ rewrite nth_error_app2 in Hi by assumption.
              destruct (i - length samples)%nat as [|n] eqn:En.
              ** simpl in Hi. injection Hi as <-.
                 assert (i = j) by lia. subst i. rewrite Ht.
                 rewrite Hp in Hl. exact Hl.
              ** destruct n; discriminate.
        -- apply ascending_snoc; [assumption|]. rewrite Ht. exact Hnow.
        -- apply Forall_app. split; [assumption|]. constructor; [lia|constructor].
      * (* the progress is clamped: nothing is appended *)
        assert (E : Object_is (progress s) (advance (progress s)) = true).
        { rewrite Hp, (progressAfter_clamped j Hj), advance_one. apply Object_is_refl. }
        rewrite (step_frame_still route google s f Ha E).
        apply (IH Hn (S j) _ samples); simpl; try assumption.
        -- eexists; reflexivity.
        -- rewrite Hp, !progressAfter_clamped by lia. reflexivity.
        -- lia.
    + (* the clock advances *)
      rewrite frames_cons_elapse. cbn [run step].
      apply (IH Hn j _ samples); simpl; try assumption.
      eapply Forall_impl; [|exact Hnow]. simpl. intros; lia.
Qed.

(** What "start" leaves: a running session at progress 0 whose history is
    the zero or one sample computed from the stale progress followed by the
    sample for progress 0. *)
Lemma start_session (s0 : Tracker) :
  isConnected s0 = false -> unit_interval (progress s0) ->
  exists s1 l1 pre,
    step route google ClickConnect s0 = Some s1 /\
    isConnected s1 = true /\ progress s1 = 0 /\
    (exists f, animationRef s1 = Some f) /\
    now s1 = now s0 /\
    newLocationAt route google 0 (now s0) = Some l1 /\
    locationHistory s1 = pre ++ [l1] /\ (length pre <= 1)%nat /\
    Forall (fun l => timestamp l = now s0) (locationHistory s1).
Proof.
  intros Hc Hp.
  destruct (newLocationAt_defined route google (progress s0) (now s0) Hroute Hp)
    as (l0 & Hl0 & Ht0).
  destruct (newLocationAt_defined route google 0 (now s0) Hroute (progress_unit 0))
    as (l1 & Hl1 & Ht1).
  rewrite (step_start route google s0 l0 l1 Hc Hl0 Hl1).
  destruct (Object_is (progress s0) 0) eqn:E.
  - apply Object_is_eq in E. rewrite E in Hl0. rewrite Hl0 in Hl1. injection Hl1 as <-.
    eexists; exists l0, []. simpl. repeat split; try reflexivity; try lia.
    + eexists; reflexivity.
    + rewrite <- E. rewrite E. exact Hl0.
    + repeat constructor. exact Ht0.
  - eexists; exists l1, [l0]. simpl. repeat split; try reflexivity; try lia.
    + eexists; reflexivity.
    + exact Hl1.
    + repeat constructor; assumption.
Qed.

End History.

Lemma ascending_same_time (h : list Location) (t : Z) :
  Forall (fun l => timestamp l = t) h -> ascending h.
Proof.
  unfold ascending. induction 1 as [|a h Ha Hf IH]; simpl; [constructor|].
  constructor; [assumption|].
  destruct Hf as [|b h Hb Hf]; simpl; constructor. lia.
Qed.

(** C4, as the code has it.  From an idle state, "start" leaves a history
    that ends with the sample for Progress 0; after any further frames and
    clock advances with [k] frames among them, the history is that start
    history followed by exactly one sample per tick that changed Progress,
    which are the first [min k 1000] ticks (from then on Progress is clamped
    and a tick appends nothing).  The i-th appended sample is the one for the
    progress after [i + 1] ticks, so the samples are in tick order with none
    dropped or repeated, and the timestamps of the whole history ascend. *)
Theorem history_after_ticks
    (route : list LatLng) (google : option (LatLng -> LatLng -> float))
    (s0 : Tracker) (evs : list Event) :
  route_ok route -> isConnected s0 = false -> unit_interval (progress s0) ->
  no_click evs ->
  exists s1 s' l1 pre samples,
    step route google ClickConnect s0 = Some s1 /\
    run route google evs s1 = Some s' /\
    newLocationAt route google 0 (now s0) = Some l1 /\
    locationHistory s1 = pre ++ [l1] /\ (length pre <= 1)%nat /\
    locationHistory s' = locationHistory s1 ++ samples /\
    length samples = Nat.min (frames evs) 1000 /\
    (forall i l, nth_error samples i = Some l ->
       newLocationAt route google (progressAfter (S i)) (timestamp l) = Some l) /\
    ascending (locationHistory s').
Proof.
  intros Hroute Hc Hp Hn.
  destruct (start_session route google Hroute s0 Hc Hp)
    as (s1 & l1 & pre & Hs & Hc1 & Hp1 & Ha1 & Hnow & Hl1 & Hh1 & Hpre & Hts).
  destruct (session_run route google Hroute (locationHistory s1) evs Hn 0 s1 [])
    as (s' & samples & Hr & _ & _ & Hh & Hlen & Hnth & Hasc); try assumption.
  - rewrite app_nil_r. reflexivity.
  - reflexivity.
  - intros i l Hi. destruct i; discriminate.
  - apply (ascending_same_time _ (now s0)). exact Hts.
  - eapply Forall_impl; [|exact Hts]. simpl. intros l Hl. rewrite Hl, Hnow. lia.
  - exists s1, s', l1, pre, samples. simpl in Hlen. repeat split; assumption.
Qed.

(** C5, as the code has it.  "stop", any idle time, then "start": the session
    is Running with Progress exactly 0, whatever Progress the prior session
    had reached, and the prior history is gone; the history is not empty but
    ends with the sample the start emits for Progress 0, preceded by at most
    one other sample. *)
Theorem restart_resets
    (route : list LatLng) (google : option (LatLng -> LatLng -> float))
    (s : Tracker) (idle : list Event) :
  route_ok route -> isConnected s = true -> unit_interval (progress s) ->
  no_click idle ->
  exists s' l1 pre,
    run route google (ClickConnect :: idle ++ [ClickConnect]) s = Some s' /\
    isConnected s' = true /\ progress s' = 0 /\
    newLocationAt route google 0 (now s') = Some l1 /\
    locationHistory s' = pre ++ [l1] /\ (length pre <= 1)%nat.
Proof.
  intros Hroute Hc Hp Hn. cbn [run]. rewrite (step_stop route google s Hc).
  destruct (idle_run route google idle (cancelAnimationFrame (setIsConnected false s)))
    as (s2 & Hr & Hc2 & _ & Hp2 & _ & _ & _); try reflexivity; try assumption.
  rewrite (run_app route google idle [ClickConnect] _ s2 Hr). cbn [run].
  simpl in Hp2. rewrite <- Hp2 in Hp.
  destruct (start_session route google Hroute s2 Hc2 Hp)
    as (s' & l1 & pre & Hs & Hc' & Hp' & _ & Hnow & Hl1 & Hh & Hpre & _).
  rewrite Hs. exists s', l1, pre. rewrite Hnow. repeat split; assumption.
Qed.

(** ** The shipped component at concrete inputs *)

(** C4 as stated fails: one tick after the first start the history holds two
    samples, the one the start emitted and the one of the tick. *)
Lemma one_tick_two_samples :
  exists s,
    run routePoints None [ClickConnect; AnimationFrame] (mount 0) = Some s /\
    frames [AnimationFrame] = 1%nat /\
    length (locationHistory s) = 2%nat /\ length (locationHistory s) <> 1%nat.
Proof.
  eexists. split; [vm_compute; reflexivity|]. repeat split. discriminate.
Qed.

(** C5 as stated fails: a session run to Progress 1 (the start and 1000
    ticks), then "stop" and "start": Progress is 0 but the history holds two
    samples, not none. *)
Lemma restart_history_not_empty :
  exists s1 s2,
    run routePoints None (ClickConnect :: repeat AnimationFrame 1000) (mount 0) = Some s1 /\
    progress s1 = 1 /\
    run routePoints None [ClickConnect; ClickConnect] s1 = Some s2 /\
    progress s2 = 0 /\
    length (locationHistory s2) = 2%nat /\ length (locationHistory s2) <> 0%nat.
Proof.
  eexists. eexists. split; [vm_compute; reflexivity|].
  split; [reflexivity|]. split; [vm_compute; reflexivity|].
  repeat split. discriminate.
Qed.

(** C10 on the code.  The first start emits exactly one sample, at the first
    waypoint.  A start after a session that had advanced (here by one tick)
    emits two: the first is computed from the progress of the session before,
    so it lies off the first waypoint, and only the second is the sample for
    Progress 0. *)
Lemma restart_first_sample_is_stale (google : option (LatLng -> LatLng -> float)) :
  (exists s l,
     step routePoints google ClickConnect (mount 0) = Some s /\
     locationHistory s = [l] /\
     loc_lat l = 18.4386 /\ loc_lng l = 79.1288) /\
  (exists s l0 l1,
     run routePoints google
         [ClickConnect; AnimationFrame; ClickConnect; ClickConnect] (mount 0) = Some s /\
     locationHistory s = [l0; l1] /\
     newLocationAt routePoints google (progressAfter 1) 0 = Some l0 /\
     (loc_lat l0 =? 18.4386) = false /\ (loc_lng l0 =? 79.1288) = false /\
     loc_lat l1 = 18.4386 /\ loc_lng l1 = 79.1288).
Proof.
  split.
  - eexists. eexists. split; [vm_compute; reflexivity|]. repeat split.
  - eexists. eexists. eexists. split; [vm_compute; reflexivity|].
    split; [reflexivity|]. split; [vm_compute; reflexivity|]. repeat split.
Qed.

(** ** The display-side history *)

Lemma slice_last_length {A : Type} (k : nat) (arr : list A) :
  length (slice_last k arr) = Nat.min (length arr) k.
Proof. unfold slice_last. rewrite length_skipn. lia. Qed.

Lemma slice_last_all {A : Type} (k : nat) (arr : list A) :
  (length arr <= k)%nat -> slice_last k arr = arr.
Proof.
  intros H. unfold slice_last. replace (length arr - k)%nat with 0%nat by lia. reflexivity.
Qed.

(** Keeping 200 of the last 201 and adding one keeps the last 201. *)
Lemma slice_last_snoc {A : Type} (xs : list A) (x : A) :
  slice_last 200 (slice_last 201 xs) ++ [x] = slice_last 201 (xs ++ [x]).
Proof.
  unfold slice_last. rewrite length_skipn, length_app, skipn_skipn. simpl length.
  rewrite skipn_app.
  replace (length xs + 1 - 201 - length xs)%nat with 0%nat by lia.
  simpl. f_equal. f_equal. lia.
Qed.

(** An accepted sample ends the history, after the most recent 200 of the
    samples before it. *)
Lemma onLocationUpdate_history (data : Display.DLocation) (s : Display.State) :
  Display.locationHistory (Display.onLocationUpdate data s) = Display.locationHistory s \/
  Display.locationHistory (Display.onLocationUpdate data s) =
    skipn (length (Display.locationHistory s) - 200) (Display.locationHistory s) ++ [data].
Proof.
  unfold Display.onLocationUpdate. destruct (Display.deviceMode s); [left; reflexivity|].
  destruct (_ || _); [right; reflexivity | left; reflexivity].
Qed.

Lemma handle_history_bound (m : Display.Msg) (s : Display.State) :
  (length (Display.locationHistory (Display.handle m s)) <=
   Nat.max (length (Display.locationHistory s)) 201)%nat.
Proof.
  destruct m as [data|id|]; simpl.
  - destruct (onLocationUpdate_history data s) as [-> | ->]; [lia|].
    rewrite length_app. fold (slice_last 200 (Display.locationHistory s)).
    rewrite slice_last_length. simpl. lia.
  - lia.
  - lia.
Qed.

(** What the handler does with a sample it accepts, and with one it does
    not. *)
Lemma onLocationUpdate_accepts (data : Display.DLocation) (s : Display.State) :
  Display.onLocationUpdate data s =
    if Display.accepts data s
    then Display.mkState (Display.deviceMode s) (Display.selectedDevice s) (Some data)
           (slice_last 200 (Display.locationHistory s) ++ [data])
    else s.
Proof.
  unfold Display.onLocationUpdate, Display.accepts.
  destruct (Display.deviceMode s); reflexivity.
Qed.

(** The bounded history is the last 201 of the unbounded one, message by
    message. *)
Lemma handle_keeps_recent (m : Display.Msg) (s : Display.State)
    (log : list Display.DLocation) :
  Display.locationHistory s = slice_last 201 log ->
  Display.locationHistory (Display.handle m s) =
    slice_last 201 (Display.received [m] s log).
Proof.
  intros H. destruct m as [data|id|]; simpl.
  - rewrite onLocationUpdate_accepts. destruct (Display.accepts data s); [|exact H].
    simpl. rewrite H. apply slice_last_snoc.
  - reflexivity.
  - exact H.
Qed.

Lemma received_cons (m : Display.Msg) (msgs : list Display.Msg) (s : Display.State)
    (log : list Display.DLocation) :
  Display.received (m :: msgs) s log =
    Display.received msgs (Display.handle m s) (Display.received [m] s log).
Proof. reflexivity. Qed.

Lemma run_keeps_recent (msgs : list Display.Msg) (s : Display.State)
    (log : list Display.DLocation) :
  Display.locationHistory s = slice_last 201 log ->
  Display.locationHistory (Display.run msgs s) =
    slice_last 201 (Display.received msgs s log).
Proof.
  unfold Display.run. revert s log.
  induction msgs as [|m msgs IH]; intros s log H; [exact H|].
  rewrite received_cons. cbn [fold_left]. apply IH. apply handle_keeps_recent. exact H.
Qed.

(** What [slice(-k)] keeps is the end of the array. *)
Lemma slice_last_suffix {A : Type} (k : nat) (arr : list A) :
  arr = firstn (length arr - k) arr ++ slice_last k arr.
Proof. unfold slice_last. symmetry. apply firstn_skipn. Qed.

(** C9.  In the display, the history never holds more than 201 samples (the
    200 most recent ones kept by [slice(-200)] and the one just received),
    whatever sequence of location updates, device selections and mode
    switches arrives; from a state whose history is longer, it never grows.
    The samples it holds are the most recent ones: from a history within the
    bound, the history is [slice(-201)] of the unbounded history, that is, the
    unbounded history is some dropped older samples followed by exactly the
    history, and nothing is dropped while the unbounded history has at most
    201 samples. *)
Theorem display_history_bounded (msgs : list Display.Msg) (s : Display.State) :
  (length (Display.locationHistory (Display.run msgs Display.initial)) <= 201)%nat /\
  (length (Display.locationHistory (Display.run msgs s)) <=
   Nat.max (length (Display.locationHistory s)) 201)%nat /\
  ((length (Display.locationHistory s) <= 201)%nat ->
   let history := Display.locationHistory (Display.run msgs s) in
   let unbounded := Display.received msgs s (Display.locationHistory s) in
   history = slice_last 201 unbounded /\
   (exists dropped, unbounded = dropped ++ history /\
      length dropped = (length unbounded - 201)%nat) /\
   length history = Nat.min (length unbounded) 201).
Proof.
  assert (H : forall st, (length (Display.locationHistory (Display.run msgs st)) <=
                          Nat.max (length (Display.locationHistory st)) 201)%nat).
  { unfold Display.run. induction msgs as [|m msgs IH]; intros st; simpl; [lia|].
    specialize (IH (Display.handle m st)).
    pose proof (handle_history_bound m st). lia. }
  split; [|split; [apply H|]].
  - specialize (H Display.initial). simpl in H. lia.
  - intros Hl. cbv zeta.
    assert (E : Display.locationHistory (Display.run msgs s) =
                slice_last 201 (Display.received msgs s (Display.locationHistory s))).
    { apply run_keeps_recent. symmetry. apply slice_last_all. exact Hl. }
    split; [exact E|]. split.
    + exists (firstn (length (Display.received msgs s (Display.locationHistory s)) - 201)
                (Display.received msgs s (Display.locationHistory s))).
      split; [rewrite E; apply slice_last_suffix|].
      rewrite length_firstn. lia.
    + rewrite E. apply slice_last_length.
Qed.

(** ** Heading *)

Lemma ltb_leb (x y : float) : (x <? y) = true -> (x <=? y) = true.
Proof.
  rewrite FloatAxioms.ltb_spec, FloatAxioms.leb_spec. unfold SFltb, SFleb.
  destruct (SFcompare (Prim2SF x) (Prim2SF y)) as [[| |]|]; congruence.
Qed.


(** ** Segment resolution on the shipped route *)

Lemma segmentProgress_checked :
  forallb (fun k => let t := segmentProgress routePoints (progressAfter k) in
                    (0 <=? t) && (t <=? 1)) (seq 0 1000) = true.
Proof. vm_compute. reflexivity. Qed.

(** C1 as stated fails: at Progress 1 on the shipped route the local
    parameter is 1.0000000000000004, above 1. *)
Lemma segmentProgress_above_one :
  unit_interval 1 /\
  segmentProgress routePoints 1 = 1.0000000000000004 /\
  (segmentProgress routePoints 1 <=? 1) = false.
Proof. repeat split. Qed.

(** C1, as the code has it.  For every route of at least two waypoints and
    every progress [p] in [[0, 1]], the segment index is an array index between
    0 and N-2, also at [p = 1], and both endpoint lookups yield a waypoint.
    The local parameter is not clamped: on the shipped route it lies in
    [[0, 1]] at every Progress the simulator reaches before the end (fewer than
    1000 ticks), and is 1.0000000000000004 at Progress 1. *)
Theorem segment_resolution_in_range (route : list LatLng) (p : float) :
  route_ok route -> unit_interval p ->
  (exists i p1 p2,
     toIndex (findCurrentSegment route p) = Some i /\
     (i <= length route - 2)%nat /\
     index route (findCurrentSegment route p) = Some p1 /\
     index route (succ (findCurrentSegment route p)) = Some p2) /\
  (forall k, (k < 1000)%nat ->
     unit_interval (segmentProgress routePoints (progressAfter k))) /\
  segmentProgress routePoints (progressAfter 1000) = 1.0000000000000004.
Proof.
  intros Hr Hp. split; [|split].
  - destruct (endpoints_defined route Hr p Hp) as (i & p1 & p2 & H1 & H2 & H3 & H4 & _).
    exists i, p1, p2. repeat split; assumption.
  - intros k Hk. pose proof segmentProgress_checked as Hall.
    rewrite forallb_forall in Hall. specialize (Hall k).
    rewrite in_seq in Hall. specialize (Hall ltac:(lia)).
    cbv zeta in Hall. apply andb_true_iff in Hall. exact Hall.
  - vm_compute. reflexivity.
Qed.

(** ** Interpolation at the ends of the route *)

Module Ends.

#[local] Open Scope Z_scope.

Lemma valid_finite (x : float) (s : bool) (m : positive) (e : Z) :
  Prim2SF x = S754_finite s m e -> -1074 <= e /\ Zdigits2 (Zpos m) <= 53.
Proof.
  intros H. pose proof (Prim2SF_valid x) as Hv. rewrite H in Hv.
  unfold valid_binary, bounded, canonical_mantissa in Hv.
  apply andb_true_iff in Hv as [Hc _]. apply Z.eqb_eq in Hc.
  unfold fexp, SpecFloat.emin, prec, emax in Hc. change IntDef.Z.max with Z.max in Hc.
  simpl Zdigits2. lia.
Qed.

(** A number between [-b] and [b] has at most the exponent of [b]. *)
Lemma bounded_small (b x : float) (mb : positive) (eb : Z) :
  Prim2SF b = S754_finite false mb eb ->
  Prim2SF (- b) = S754_finite true mb eb ->
  (- b <=? x)%float = true -> (x <=? b)%float = true ->
  small eb (Prim2SF x).
Proof.
  intros Hb Hnb. rewrite !FloatAxioms.leb_spec, Hb, Hnb.
  pose proof (valid_finite x) as Hv.
  destruct (Prim2SF x) as [s|s| |s m e]; unfold SFleb, SFcompare; cbv beta iota.
  - intros _ _. exact I.
  - destruct s; intros H1 H2; discriminate.
  - intros H1; discriminate.
  - specialize (Hv s m e eq_refl). destruct s; cbv beta iota; intros H1 H2.
    + split; [|lia]. split; [lia|]. destruct (Z.compare_spec eb e); try lia; discriminate.
    + split; [|lia]. split; [lia|]. destruct (Z.compare_spec e eb); try lia; discriminate.
Qed.

Lemma iter_xO_value (p k : positive) :
  Zpos (Pos.iter xO p k) = Zpos p * 2 ^ Zpos k.
Proof.
  induction k as [|k IH] using Pos.peano_ind.
  - simpl. lia.
  - rewrite Pos.iter_succ, Pos2Z.inj_xO, IH, Pos2Z.inj_succ, Z.pow_succ_r by lia. lia.
Qed.

Lemma Zdigits2_below (z d : Z) : 0 <= z < 2 ^ d -> 0 <= d -> Zdigits2 z <= d.
Proof.
  intros [H0 H1] Hd. destruct (Z.eq_dec z 0) as [->|Hn]; [simpl; lia|].
  pose proof (Zdigits2_bounds z ltac:(lia)) as [Hlo _].
  destruct (Z_le_gt_dec (Zdigits2 z) d) as [H|H]; [assumption|].
  assert (2 ^ d <= 2 ^ (Zdigits2 z - 1)) by (apply Z.pow_le_mono_r; lia). lia.
Qed.

(** The aligned mantissa of [shl_align]. *)
Lemma shl_align_value (m : positive) (e e' : Z) :
  e' <= e ->
  Zpos (fst (shl_align m e e')) = Zpos m * 2 ^ (e - e').
Proof.
  intros H. unfold shl_align. destruct (e' - e) as [|k|k] eqn:E; try lia; simpl fst.
  - replace (e - e') with 0 by lia. lia.
  - rewrite iter_xO_value. f_equal. f_equal. lia.
Qed.

Lemma shl_align_digits (m : positive) (e e' : Z) :
  let '(mz, ez) := shl_align m e e' in
  Zdigits2 (Zpos mz) + ez = Zdigits2 (Zpos m) + e /\ ez <= e.
Proof.
  unfold shl_align. destruct (e' - e) as [|k|k] eqn:E.
  - split; lia.
  - split; lia.
  - simpl Zdigits2. rewrite digits2_pos_iter_xO. split; lia.
Qed.

(** Rounding a mantissa of moderate size gives a zero or a finite number. *)
Lemma binary_round_finite (s : bool) (m : positive) (e : Z) :
  e <= 971 -> Zdigits2 (Zpos m) + e <= 1023 ->
  finite_number (binary_round prec emax s m e).
Proof.
  intros He Hd. unfold binary_round.
  pose proof (shl_align_digits m e (fexp prec emax (Z.pos (digits2_pos m) + e))) as Hal.
  destruct (shl_align m e (fexp prec emax (Z.pos (digits2_pos m) + e))) as [mz ez].
  destruct Hal as [Hdz Hez].
  destruct (binary_round_aux_spec s (Zpos mz) ez loc_Exact ltac:(lia))
    as (m2 & e2 & -> & Hm2 & He2 & _).
  unfold rounded. destruct m2 as [|p2|p2]; try lia; [exact I|].
  destruct (Z.leb_spec e2 (emax - prec)) as [_|H]; [exact I|].
  unfold emax, prec in H. lia.
Qed.

Lemma binary_normalize_finite (z e : Z) :
  e <= 971 -> Zdigits2 z + e <= 1023 ->
  finite_number (binary_normalize prec emax z e false).
Proof.
  intros He Hd. destruct z as [|p|p]; simpl binary_normalize.
  - exact I.
  - apply binary_round_finite; assumption.
  - apply binary_round_finite; assumption.
Qed.

(** The difference of two numbers of small exponent is zero or finite. *)
Lemma SFsub_finite (x y : spec_float) :
  small (-45) x -> small (-45) y -> finite_number (SFsub prec emax x y).
Proof.
  destruct x as [sx|sx| |sx mx ex]; destruct y as [sy|sy| |sy my ey];
    simpl small; try contradiction; intros Hx Hy.
  - destruct sx, sy; exact I.
  - exact I.
  - exact I.
  - destruct Hx as [[Hx0 Hx1] Hx2]. destruct Hy as [[Hy0 Hy1] Hy2].
    unfold SFsub. change IntDef.Z.min with Z.min.
    remember (Z.min ex ey) as ez eqn:Eez.
    assert (Hez : ez <= ex /\ ez <= ey /\ -1074 <= ez) by lia.
    clear Eez. destruct Hez as (Hzx & Hzy & Hz0).
    pose proof (shl_align_value mx ex ez ltac:(lia)) as Hax.
    pose proof (shl_align_value my ey ez ltac:(lia)) as Hay.
    pose proof (Zdigits2_bounds (Zpos mx) ltac:(lia)) as [_ Hbx].
    pose proof (Zdigits2_bounds (Zpos my) ltac:(lia)) as [_ Hby].
    simpl Zdigits2 in Hbx, Hby, Hx2, Hy2.
    assert (Hpx : Zpos mx < 2 ^ 53).
    { eapply Z.lt_le_trans; [exact Hbx|]. apply Z.pow_le_mono_r; lia. }
    assert (Hpy : Zpos my < 2 ^ 53).
    { eapply Z.lt_le_trans; [exact Hby|]. apply Z.pow_le_mono_r; lia. }
    assert (Hex : 2 ^ (ex - ez) <= 2 ^ (-45 - ez)) by (apply Z.pow_le_mono_r; lia).
    assert (Hey : 2 ^ (ey - ez) <= 2 ^ (-45 - ez)) by (apply Z.pow_le_mono_r; lia).
    assert (Hpos : 0 < 2 ^ (-45 - ez)) by (apply Z.pow_pos_nonneg; lia).
    assert (Hposx : 0 < 2 ^ (ex - ez)) by (apply Z.pow_pos_nonneg; lia).
    assert (Hposy : 0 < 2 ^ (ey - ez)) by (apply Z.pow_pos_nonneg; lia).
    set (ax := fst (shl_align mx ex ez)) in *. set (ay := fst (shl_align my ey ez)) in *.
    assert (Bx : Zpos ax < 2 ^ 53 * 2 ^ (-45 - ez)) by nia.
    assert (By : Zpos ay < 2 ^ 53 * 2 ^ (-45 - ez)) by nia.
    set (z := cond_Zopp sx (Zpos ax) - cond_Zopp sy (Zpos ay)).
    assert (Hz : Z.abs z < 2 ^ (9 - ez)).
    { replace (9 - ez) with (1 + (53 + (-45 - ez))) by lia.
      rewrite !Z.pow_add_r by lia. change (2 ^ 1) with 2.
      subst z. unfold cond_Zopp. destruct sx, sy; lia. }
    apply binary_normalize_finite; [lia|].
    assert (Hd : Zdigits2 z <= 9 - ez).
    { destruct z as [|p|p]; simpl Zdigits2; [lia| |].
      - apply (Zdigits2_below (Zpos p)); lia.
      - apply (Zdigits2_below (Zpos p)); lia. }
    lia.
Qed.

End Ends.

Import Ends.

Lemma small_weaken (e1 e2 : Z) (x : spec_float) :
  (e1 <= e2)%Z -> small e1 x -> small e2 x.
Proof. intros H. destruct x; simpl; auto. intros [[? ?] ?]. repeat split; lia. Qed.

Lemma geographic_small (w : LatLng) :
  geographic w -> small (-45) (Prim2SF (lat w)) /\ small (-45) (Prim2SF (lng w)).
Proof.
  intros [[H1 H2] [H3 H4]]. split.
  - apply (small_weaken (-46)); [lia|].
    exact (bounded_small 90 (lat w) _ _ eq_refl eq_refl H1 H2).
  - exact (bounded_small 180 (lng w) _ _ eq_refl eq_refl H3 H4).
Qed.

Lemma small_finite (e : Z) (x : spec_float) : small e x -> finite_number x.
Proof. destruct x; simpl; auto. Qed.

Lemma mul_zero (d : float) :
  finite_number (Prim2SF d) -> exists s, Prim2SF (d * 0) = S754_zero s.
Proof.
  intros H. rewrite FloatAxioms.mul_spec, zero_SF.
  destruct (Prim2SF d) as [s|s| |s m e]; try contradiction; simpl; eauto.
Qed.

Lemma SFeqb_refl (x : spec_float) : finite_number x -> SFeqb x x = true.
Proof.
  destruct x as [s|s| |s m e]; try contradiction; intros _; unfold SFeqb, SFcompare.
  - reflexivity.
  - rewrite Z.compare_refl, Pos.compare_cont_refl. destruct s; reflexivity.
Qed.

Lemma add_zero_eqb (a z : float) (s : bool) :
  finite_number (Prim2SF a) -> Prim2SF z = S754_zero s -> (a + z =? a) = true.
Proof.
  intros Ha Hz. rewrite FloatAxioms.eqb_spec, FloatAxioms.add_spec, Hz.
  destruct (Prim2SF a) as [sa|sa| |sa m e] eqn:E; try contradiction.
  - destruct sa, s; reflexivity.
  - change (SF64add (S754_finite sa m e) (S754_zero s)) with (S754_finite sa m e).
    apply SFeqb_refl. exact I.
Qed.

Section Start.

Variable route : list LatLng.
Hypothesis Hroute : route_ok route.

Lemma findCurrentSegment_zero : findCurrentSegment route 0 = JInt 0.
Proof.
  destruct (progressPerSegment_finite route Hroute) as (m & e & Hpps).
  destruct Hroute as [H2 _].
  unfold findCurrentSegment. change (1 <=? 0) with false. cbv iota zeta.
  unfold Math_floor. rewrite FloatAxioms.div_spec, Hpps, zero_SF. simpl.
  rewrite Z.min_l; [reflexivity|]. unfold routeLength. lia.
Qed.

Lemma segmentProgress_zero : segmentProgress route 0 = 0.
Proof.
  destruct (progressPerSegment_finite route Hroute) as (m & e & Hpps).
  unfold segmentProgress. rewrite findCurrentSegment_zero. cbv zeta.
  change (toNumber (JInt 0)) with 0.
  assert (E : 0 * (1 / Z2F (routeLength route - 1)) = 0).
  { apply Prim2SF_inj. rewrite FloatAxioms.mul_spec, Hpps, zero_SF. reflexivity. }
  rewrite E. change (0 - 0) with 0.
  apply Prim2SF_inj. rewrite FloatAxioms.div_spec, Hpps, zero_SF. reflexivity.
Qed.

End Start.

(** The linear interpolation at parameter 0 returns its first point. *)
Lemma interpolate_zero (a b : float) :
  small (-45) (Prim2SF a) -> small (-45) (Prim2SF b) ->
  (a + (b - a) * 0 =? a) = true.
Proof.
  intros Ha Hb.
  assert (Hd : finite_number (Prim2SF (b - a))).
  { rewrite FloatAxioms.sub_spec. apply SFsub_finite; assumption. }
  destruct (mul_zero (b - a) Hd) as [s Hs].
  apply (add_zero_eqb a _ s); [|exact Hs]. apply (small_finite (-45)). exact Ha.
Qed.

(** C3 as stated fails: on this route the longitude computed at Progress 1
    is -0.12780000000000014, not the -0.1278 of the last waypoint. *)
Lemma end_of_route_missed :
  route_ok parisLondon /\
  exists l, newLocationAt parisLondon None 1 0 = Some l /\
            nth_error parisLondon 7 = Some (mkLatLng 51.5074 (-0.1278)) /\
            loc_lng l = -0.12780000000000014 /\
            (loc_lng l =? -0.1278) = false.
Proof.
  split.
  - split; [simpl; lia|]. vm_compute. discriminate.
  - eexists. split; [vm_compute; reflexivity|]. repeat split.
Qed.

(** C3, as the code has it.  On every route of at least two geographic
    waypoints the position computed at Progress 0 equals the first waypoint
    (as numbers: [===]).  At Progress 1 the local parameter is the rounded
    value of [(1 - (N-2)·(1/(N-1))) / (1/(N-1))], which need not be 1; on the
    shipped route the position computed at Progress 1 is exactly the last
    waypoint, and the one at Progress 0 exactly the first. *)
Theorem interpolation_at_ends
    (google : option (LatLng -> LatLng -> float)) (t : Z)
    (w0 w1 : LatLng) (rest : list LatLng) :
  route_ok (w0 :: w1 :: rest) -> geographic w0 -> geographic w1 ->
  (exists l, newLocationAt (w0 :: w1 :: rest) google 0 t = Some l /\
             (loc_lat l =? lat w0) = true /\ (loc_lng l =? lng w0) = true) /\
  (exists l, newLocationAt routePoints google 0 t = Some l /\
             loc_lat l = 18.4386 /\ loc_lng l = 79.1288) /\
  (exists l, newLocationAt routePoints google 1 t = Some l /\
             loc_lat l = 17.3850 /\ loc_lng l = 78.4867).
Proof.
  intros Hr G0 G1. split; [|split].
  - unfold newLocationAt. rewrite (findCurrentSegment_zero _ Hr).
    rewrite (segmentProgress_zero _ Hr). simpl. eexists. split; [reflexivity|].
    destruct (geographic_small w0 G0) as [A0 B0].
    destruct (geographic_small w1 G1) as [A1 B1].
    split; apply interpolate_zero; assumption.
  - eexists. split; [vm_compute; reflexivity|]. split; reflexivity.
  - eexists. split; [vm_compute; reflexivity|]. split; reflexivity.
Qed.

(** ** The component at rest after an event *)

Lemma commit_dependencies (route : list LatLng)
    (google : option (LatLng -> LatLng -> float)) (prev cur st : Tracker) :
  commit route google prev cur = Some st ->
  isConnected st = isConnected cur /\
  (isConnected prev = isConnected cur -> progress st = progress cur).
Proof.
  unfold commit, startStopEffect, updateTargetEffect. intros H.
  destruct (Bool.eqb (isConnected prev) (isConnected cur)) eqn:Ec; simpl in H.
  - apply eqb_prop in Ec.
    destruct (negb (Object_is (progress prev) (progress cur)));
      [destruct (isConnected cur) eqn:E; simpl in H;
        [destruct (newLocationAt route google (progress cur) (now cur)); [|discriminate]|] |];
      injection H as <-; simpl; auto.
  - apply eqb_false_iff in Ec.
    destruct (isConnected cur) eqn:E; simpl in H;
      [destruct (newLocationAt route google (progress cur) _); [|discriminate]|];
      injection H as <-; simpl; split; auto; intros; congruence.
Qed.

(** After the two commits of [flush] a further commit runs no effect. *)
Lemma flush_at_rest (route : list LatLng)
    (google : option (LatLng -> LatLng -> float)) (prev cur st : Tracker) :
  flush route google prev cur = Some st ->
  exists st1, commit route google prev cur = Some st1 /\
              commit route google cur st1 = Some st /\
              commit route google st1 st = Some st.
Proof.
  unfold flush. destruct (commit route google prev cur) as [st1|] eqn:E1; [|discriminate].
  intros E2. exists st1. split; [reflexivity|]. split; [exact E2|].
  destruct (commit_dependencies _ _ _ _ _ E1) as [Hc1 _].
  destruct (commit_dependencies _ _ _ _ _ E2) as [Hc2 Hp2].
  apply commit_settled; [congruence|]. symmetry. apply Hp2. congruence.
Qed.

(** ** Instances *)

(** A stop at the destination followed by a frame and 16 ms. *)
Lemma stop_retains_progress_and_history_witness :
  isConnected atDestination = true /\
  no_click [AnimationFrame; Elapse 16] /\
  exists s', run routePoints None (ClickConnect :: [AnimationFrame; Elapse 16])
                 atDestination = Some s' /\
             isConnected s' = false /\ animationRef s' = None /\
             progress s' = progress atDestination /\
             locationHistory s' = locationHistory atDestination /\
             targetLocation s' = targetLocation atDestination.
Proof.
  split; [reflexivity|]. split; [repeat constructor; discriminate|].
  apply stop_retains_progress_and_history;
    [reflexivity | repeat constructor; discriminate].
Defined.

(** Two more frames, 16 ms apart, at the destination. *)
Lemma progress_stays_clamped_witness :
  progress atDestination = 1 /\
  no_click [AnimationFrame; Elapse 16; AnimationFrame] /\
  exists s', run routePoints None [AnimationFrame; Elapse 16; AnimationFrame]
                 atDestination = Some s' /\
             progress s' = 1 /\ (1 <? progress s') = false.
Proof.
  split; [reflexivity|]. split; [repeat constructor; discriminate|].
  apply progress_stays_clamped; [reflexivity | repeat constructor; discriminate].
Defined.


(** Two ticks, 16 ms apart, after the first start. *)
Lemma history_after_ticks_witness :
  route_ok routePoints /\ isConnected (mount 0) = false /\
  unit_interval (progress (mount 0)) /\
  no_click [AnimationFrame; Elapse 16; AnimationFrame] /\
  exists s1 s' l1 pre samples,
    step routePoints None ClickConnect (mount 0) = Some s1 /\
    run routePoints None [AnimationFrame; Elapse 16; AnimationFrame] s1 = Some s' /\
    newLocationAt routePoints None 0 (now (mount 0)) = Some l1 /\
    locationHistory s1 = pre ++ [l1] /\ (length pre <= 1)%nat /\
    locationHistory s' = locationHistory s1 ++ samples /\
    length samples = Nat.min (frames [AnimationFrame; Elapse 16; AnimationFrame]) 1000 /\
    (forall i l, nth_error samples i = Some l ->
       newLocationAt routePoints None (progressAfter (S i)) (timestamp l) = Some l) /\
    ascending (locationHistory s').
Proof.
  assert (Hr : route_ok routePoints) by (split; [simpl; lia | vm_compute; discriminate]).
  split; [exact Hr|]. split; [reflexivity|]. split; [split; reflexivity|].
  split; [repeat constructor; discriminate|].
  apply (history_after_ticks routePoints None (mount 0)
           [AnimationFrame; Elapse 16; AnimationFrame] Hr);
    [reflexivity | split; reflexivity | repeat constructor; discriminate].
Defined.

(** A stop at the destination and a start half a second later. *)
Lemma restart_resets_witness :
  route_ok routePoints /\ isConnected atDestination = true /\
  unit_interval (progress atDestination) /\ no_click [Elapse 500] /\
  exists s' l1 pre,
    run routePoints None (ClickConnect :: [Elapse 500] ++ [ClickConnect])
        atDestination = Some s' /\
    isConnected s' = true /\ progress s' = 0 /\
    newLocationAt routePoints None 0 (now s') = Some l1 /\
    locationHistory s' = pre ++ [l1] /\ (length pre <= 1)%nat.
Proof.
  assert (Hr : route_ok routePoints) by (split; [simpl; lia | vm_compute; discriminate]).
  split; [exact Hr|]. split; [reflexivity|]. split; [split; reflexivity|].
  split; [repeat constructor; discriminate|].
  apply (restart_resets routePoints None atDestination [Elapse 500] Hr);
    [reflexivity | split; reflexivity | repeat constructor; discriminate].
Defined.


(** The end of the shipped route. *)
Lemma segment_resolution_in_range_witness :
  route_ok routePoints /\ unit_interval 1 /\
  exists i p1 p2,
    toIndex (findCurrentSegment routePoints 1) = Some i /\
    (i <= length routePoints - 2)%nat /\
    index routePoints (findCurrentSegment routePoints 1) = Some p1 /\
    index routePoints (succ (findCurrentSegment routePoints 1)) = Some p2.
Proof.
  assert (Hr : route_ok routePoints) by (split; [simpl; lia | vm_compute; discriminate]).
  split; [exact Hr|]. split; [split; reflexivity|].
  apply (proj1 (segment_resolution_in_range routePoints 1 Hr (conj eq_refl eq_refl))).
Defined.

(** The start of the Paris - London route. *)
Lemma interpolation_at_ends_witness :
  route_ok parisLondon /\
  geographic (mkLatLng 48.8566 2.3522) /\ geographic (mkLatLng 49.2 2.0) /\
  exists l, newLocationAt parisLondon None 0 0 = Some l /\
            (loc_lat l =? 48.8566) = true /\ (loc_lng l =? 2.3522) = true.
Proof.
  assert (Hr : route_ok parisLondon) by (split; [simpl; lia | vm_compute; discriminate]).
  split; [exact Hr|]. split; [repeat split|]. split; [repeat split|].
  apply (proj1 (interpolation_at_ends None 0 (mkLatLng 48.8566 2.3522) (mkLatLng 49.2 2.0) _ Hr
                  ltac:(repeat split) ltac:(repeat split))).
Defined.

(** * Further properties of the two pages *)

#[local] Arguments advance : simpl never.

(** ** Invariants of the reachable states *)

Section Reachable.

Variable route : list LatLng.
Variable google : option (LatLng -> LatLng -> float).

Lemma run_invariant (P : Tracker -> Prop) :
  (forall e s s', P s -> step route google e s = Some s' -> P s') ->
  forall evs s s', P s -> run route google evs s = Some s' -> P s'.
Proof.
  intros Hstep. induction evs as [|e evs IH]; intros s s' Hs Hr.
  - injection Hr as <-. exact Hs.
  - cbn [run] in Hr. destruct (step route google e s) as [s1|] eqn:E; [|discriminate].
    apply (IH s1 s'); [|exact Hr]. apply (Hstep e s s1 Hs E).
Qed.

Lemma reachable_invariant (P : Tracker -> Prop) :
  (forall t, P (mount t)) ->
  (forall e s s', P s -> step route google e s = Some s' -> P s') ->
  forall s, reachable route google s -> P s.
Proof.
  intros H0 Hstep s (t & evs & Hr). apply (run_invariant P Hstep evs (mount t) s (H0 t) Hr).
Qed.

(** The outcomes of one step. *)
Lemma step_cases (e : Event) (s s' : Tracker) :
  step route google e s = Some s' ->
  (s' = mkTracker (isConnected s') (progress s) (locationHistory s)
                  (targetLocation s) (animationRef s') (lastFrame s') (now s')) \/
  (exists l, isConnected s = true /\
             newLocationAt route google (advance (progress s)) (now s) = Some l /\
             s' = mkTracker true (advance (progress s)) (locationHistory s ++ [l])
                            (Some l) (animationRef s') (lastFrame s') (now s')) \/
  (isConnected s = false /\ e = AnimationFrame /\
   s' = mkTracker false (advance (progress s)) (locationHistory s)
                  (targetLocation s) (animationRef s') (lastFrame s') (now s')) \/
  (exists l0, isConnected s = false /\ e = ClickConnect /\
              newLocationAt route google (progress s) (now s) = Some l0 /\
              progress s = 0 /\
              s' = mkTracker true 0 [l0] (Some l0)
                             (animationRef s') (lastFrame s') (now s')) \/
  (exists l0 l1, isConnected s = false /\ e = ClickConnect /\
                 newLocationAt route google (progress s) (now s) = Some l0 /\
                 newLocationAt route google 0 (now s) = Some l1 /\
                 s' = mkTracker true 0 [l0; l1] (Some l1)
                                (animationRef s') (lastFrame s') (now s')).
Proof.
  intros Hs. destruct s as [c p h tl a lf t]. destruct e as [| |dt].
  - unfold step, flush, connectToTracker, commit, startStopEffect, updateTargetEffect in Hs.
    destruct c; simpl in Hs.
    + rewrite ?Object_is_refl in Hs. simpl in Hs. injection Hs as <-. left. reflexivity.
    + destruct (newLocationAt route google p t) as [l0|] eqn:E0; [|discriminate].
      simpl in Hs. destruct (Object_is p 0) eqn:Ep; simpl in Hs.
      * injection Hs as <-. right; right; right; left. exists l0. simpl.
        apply Object_is_eq in Ep. repeat split; assumption.
      * destruct (newLocationAt route google 0 t) as [l1|] eqn:E1; [|discriminate].
        injection Hs as <-. right; right; right; right. exists l0, l1. simpl.
        repeat split; assumption.
  - unfold step in Hs. simpl in Hs. destruct a as [f|].
    + unfold flush, animateAlongRoute, commit, startStopEffect, updateTargetEffect in Hs.
      simpl in Hs. rewrite eqb_reflx in Hs. simpl in Hs.
      destruct (Object_is p (advance p)) eqn:Ep; simpl in Hs.
      * rewrite ?eqb_reflx, ?Object_is_refl in Hs. simpl in Hs.
        injection Hs as <-. left. apply Object_is_eq in Ep.
        unfold requestAnimationFrame, setProgress. simpl. rewrite <- Ep. reflexivity.
      * destruct c; simpl in Hs.
        -- destruct (newLocationAt route google (advance p) t) as [l|] eqn:El; [|discriminate].
           simpl in Hs. rewrite ?Object_is_refl in Hs. simpl in Hs.
           injection Hs as <-. right; left. exists l. simpl. repeat split; assumption.
        -- rewrite ?Object_is_refl in Hs. simpl in Hs.
           injection Hs as <-. right; right; left. simpl. repeat split.
    + injection Hs as <-. left. reflexivity.
  - injection Hs as <-. left. reflexivity.
Qed.

Lemma step_shows_latest (e : Event) (s s' : Tracker) :
  shows_latest s -> step route google e s = Some s' -> shows_latest s'.
Proof.
  intros Hs Hstep. unfold shows_latest in *.
  destruct (step_cases e s s' Hstep)
    as [-> | [(l & _ & _ & ->) | [(_ & _ & ->) | [(l0 & _ & _ & _ & _ & ->) | (l0 & l1 & _ & _ & _ & _ & ->)]]]];
    simpl.
  - exact Hs.
  - right. exists (locationHistory s), l. split; reflexivity.
  - exact Hs.
  - right. exists [], l0. split; reflexivity.
  - right. exists [l0], l1. split; reflexivity.
Qed.

Lemma step_from_ticks (e : Event) (s s' : Tracker) :
  from_ticks route google s -> step route google e s = Some s' ->
  from_ticks route google s'.
Proof.
  intros [[k Hk] Hf] Hstep. unfold from_ticks.
  destruct (step_cases e s s' Hstep)
    as [-> | [(l & _ & Hl & ->) | [(_ & _ & ->) | [(l0 & _ & _ & Hl0 & _ & ->) | (l0 & l1 & _ & _ & Hl0 & Hl1 & ->)]]]];
    simpl.
  - split; [exists k; exact Hk | exact Hf].
  - split; [exists (S k); rewrite Hk; reflexivity|].
    apply Forall_app. split; [exact Hf|]. constructor; [|constructor].
    exists (S k), (now s). rewrite Hk in Hl. exact Hl.
  - split; [exists (S k); rewrite Hk; reflexivity | exact Hf].
  - split; [exists 0%nat; reflexivity|]. constructor; [|constructor].
    exists k, (now s). rewrite Hk in Hl0. exact Hl0.
  - split; [exists 0%nat; reflexivity|].
    constructor; [|constructor; [|constructor]].
    + exists k, (now s). rewrite Hk in Hl0. exact Hl0.
    + exists 0%nat, (now s). exact Hl1.
Qed.

End Reachable.

Lemma reachable_shows_latest (route : list LatLng)
    (google : option (LatLng -> LatLng -> float)) (s : Tracker) :
  reachable route google s -> shows_latest s.
Proof.
  apply reachable_invariant.
  - intros t. left. reflexivity.
  - apply step_shows_latest.
Qed.

Lemma reachable_from_ticks (route : list LatLng)
    (google : option (LatLng -> LatLng -> float)) (s : Tracker) :
  reachable route google s -> from_ticks route google s.
Proof.
  apply reachable_invariant.
  - intros t. split; [exists 0%nat; reflexivity | constructor].
  - apply step_from_ticks.
Qed.

Lemma reachable_initial_target (route : list LatLng)
    (google : option (LatLng -> LatLng -> float)) (s : Tracker) :
  reachable route google s ->
  locationHistory s = [] -> exists t, targetLocation s = targetLocation (mount t).
Proof.
  revert s. apply (reachable_invariant route google
    (fun s => locationHistory s = [] -> exists t, targetLocation s = targetLocation (mount t))).
  - intros t _. exists t. reflexivity.
  - intros e s s' Hs Hstep.
    destruct (step_cases route google e s s' Hstep)
      as [-> | [(l & _ & _ & ->) | [(_ & _ & ->) | [(l0 & _ & _ & _ & _ & ->) | (l0 & l1 & _ & _ & _ & _ & ->)]]]];
      simpl; try exact Hs; try discriminate.
    intros H. destruct (locationHistory s); discriminate.
Qed.

(** X1.  In every reachable state the target location is the newest sample
    of the history; while the history is still empty (before the first
    start) it is the initial target the component was mounted with. *)
Theorem target_is_latest_sample
    (route : list LatLng) (google : option (LatLng -> LatLng -> float))
    (s : Tracker) :
  reachable route google s ->
  (locationHistory s = [] /\
   exists t, targetLocation s = targetLocation (mount t)) \/
  (exists h l, locationHistory s = h ++ [l] /\ targetLocation s = Some l).
Proof.
  intros Hr. destruct (reachable_shows_latest route google s Hr) as [H|H].
  - left. split; [exact H|]. apply (reachable_initial_target route google s Hr H).
  - right. exact H.
Qed.

Lemma newLocationAt_heading (route : list LatLng)
    (google : option (LatLng -> LatLng -> float)) (p : float) (t : Z) (l : Location) :
  newLocationAt route google p t = Some l ->
  exists r, heading l = Some r.
Proof.
  unfold newLocationAt. destruct (index route _); [|discriminate].
  destruct (index route _); [|discriminate]. intros [= <-]. eexists; reflexivity.
Qed.

(** X2.  What the map is updated with in a reachable state: the marker is
    put at the target, and the path is the positions of the history followed
    by the marker position.  Once a session has started, the marker sits on
    the newest sample, turned to its heading, and the path therefore ends
    with that position twice. *)
Theorem map_update_follows_history
    (route : list LatLng) (google : option (LatLng -> LatLng -> float))
    (s : Tracker) :
  reachable route google s ->
  exists u, updateMapEffect true s = Some u /\
    pathCoords u = map positionOf (locationHistory s) ++ [markerPosition u] /\
    length (pathCoords u) = S (length (locationHistory s)) /\
    (forall h l, locationHistory s = h ++ [l] ->
       markerPosition u = positionOf l /\
       (exists r, markerRotation u = Some r /\ heading l = Some r) /\
       pathCoords u = map positionOf h ++ [positionOf l; positionOf l]).
Proof.
  intros Hr. unfold updateMapEffect. simpl negb. cbv iota.
  destruct (reachable_shows_latest route google s Hr) as [He | (h & l & Hh & Ht)];
    [destruct (reachable_initial_target route google s Hr He) as [t Ht]|].
  - rewrite Ht. simpl. eexists. split; [reflexivity|]. simpl.
    rewrite He. simpl. split; [reflexivity|]. split; [reflexivity|].
    intros h' l' H'. destruct h'; discriminate.
  - rewrite Ht. eexists. split; [reflexivity|]. simpl.
    split; [reflexivity|]. split; [rewrite length_app, length_map; simpl; lia|].
    intros h' l' H'. rewrite Hh in H'. apply app_inj_tail in H' as [<- <-].
    split; [reflexivity|]. split.
    + destruct (reachable_from_ticks route google s Hr) as [_ Hf].
      rewrite Hh in Hf. apply Forall_app in Hf as [_ Hf].
      inversion Hf as [|? ? (k & t & Hl) _]; subst.
      destruct (newLocationAt_heading route google _ _ _ Hl) as [r Hrot].
      exists r. split; exact Hrot.
    + rewrite Hh, map_app, <- app_assoc. reflexivity.
Qed.

(** The position of a sample does not depend on the maps library nor on the
    clock. *)
Lemma newLocationAt_position (route : list LatLng)
    (google : option (LatLng -> LatLng -> float)) (p : float) (t : Z) :
  option_map positionOf (newLocationAt route google p t) =
  option_map positionOf (newLocationAt route None p 0).
Proof.
  unfold newLocationAt. destruct (index route _); [|reflexivity].
  destruct (index route _); reflexivity.
Qed.

Lemma samples_checked : forallb sample_check (seq 0 1001) = true.
Proof. vm_compute. reflexivity. Qed.

Lemma sample_between (google : option (LatLng -> LatLng -> float))
    (k : nat) (t : Z) (l : Location) :
  newLocationAt routePoints google (progressAfter k) t = Some l ->
  betweenTheCities (positionOf l) = true.
Proof.
  intros Hl.
  assert (Hk : exists j, (j <= 1000)%nat /\ progressAfter k = progressAfter j).
  { destruct (Nat.le_gt_cases k 1000) as [H|H].
    - exists k. split; [exact H|reflexivity].
    - exists 1000%nat. split; [lia|]. rewrite !progressAfter_clamped by lia. reflexivity. }
  destruct Hk as (j & Hj & Ej). rewrite Ej in Hl.
  pose proof samples_checked as Hall. rewrite forallb_forall in Hall.
  specialize (Hall j). rewrite in_seq in Hall. specialize (Hall ltac:(lia)).
  unfold sample_check in Hall.
  pose proof (newLocationAt_position routePoints google (progressAfter j) t) as Hpos.
  rewrite Hl in Hpos. cbn [option_map] in Hpos.
  destruct (newLocationAt routePoints None (progressAfter j) 0) as [l'|]; [|discriminate].
  cbn [option_map] in Hpos.
  assert (E : positionOf l = positionOf l') by congruence.
  rewrite E. exact Hall.
Qed.

(** X3.  On the shipped route every sample of the history and the target of
    every reachable state lie in the rectangle spanned by Karimnagar and
    Hyderabad, the two points the map bounds are extended with when the map is
    created: the simulated marker never leaves the fitted view. *)
Theorem samples_between_the_cities
    (google : option (LatLng -> LatLng -> float)) (s : Tracker) :
  reachable routePoints google s ->
  Forall (fun l => betweenTheCities (positionOf l) = true) (locationHistory s) /\
  exists l, targetLocation s = Some l /\ betweenTheCities (positionOf l) = true.
Proof.
  intros Hr.
  assert (Hall : Forall (fun l => betweenTheCities (positionOf l) = true)
                        (locationHistory s)).
  { destruct (reachable_from_ticks routePoints google s Hr) as [_ Hf].
    eapply Forall_impl; [|exact Hf]. simpl. intros l (k & t & Hl).
    apply (sample_between google k t l Hl). }
  split; [exact Hall|].
  destruct (reachable_shows_latest routePoints google s Hr) as [He | (h & l & Hh & Ht)];
    [destruct (reachable_initial_target routePoints google s Hr He) as [t Ht]|].
  - rewrite Ht. eexists. split; [reflexivity|]. reflexivity.
  - exists l. split; [exact Ht|]. rewrite Hh in Hall.
    apply Forall_app in Hall as [_ Hl]. inversion Hl; subst. assumption.
Qed.

Lemma percents_checked : forallb percent_check (seq 0 1000) = true.
Proof. vm_compute. reflexivity. Qed.

Lemma percent_checked (k : nat) : (k < 1000)%nat -> percent_check k = true.
Proof.
  intros H. pose proof percents_checked as Hall. rewrite forallb_forall in Hall.
  apply Hall. apply in_seq. lia.
Qed.

(** X4.  In every reachable state Progress lies in [[0, 1]] and the figure
    behind the progress bar, [progress * 100], lies in [[0, 100]]: the bar never
    overflows its track. *)
Theorem progress_bar_in_range
    (route : list LatLng) (google : option (LatLng -> LatLng -> float))
    (s : Tracker) :
  reachable route google s ->
  unit_interval (progress s) /\
  (0 <=? progressPercent s) = true /\ (progressPercent s <=? 100) = true.
Proof.
  intros Hr. destruct (reachable_progress route google s Hr) as [k Hk].
  unfold progressPercent. rewrite Hk. split; [apply progress_unit|].
  destruct (Nat.lt_ge_cases k 1000) as [H|H].
  - pose proof (percent_checked k H) as Hc. unfold percent_check in Hc.
    rewrite !andb_true_iff in Hc. destruct Hc as [[_ H0] H1].
    split; [exact H0 | apply ltb_leb; exact H1].
  - rewrite progressAfter_clamped by lia. split; reflexivity.
Qed.

Lemma routePoints_ok : route_ok routePoints.
Proof. split; [simpl; lia | vm_compute; discriminate]. Qed.

Lemma start_shows_latest (route : list LatLng)
    (google : option (LatLng -> LatLng -> float)) (s s' : Tracker) :
  isConnected s = false -> step route google ClickConnect s = Some s' ->
  shows_latest s'.
Proof.
  destruct s as [c p h tl a lf t]. simpl. intros -> Hs.
  unfold step, flush, connectToTracker, commit, startStopEffect, updateTargetEffect in Hs.
  simpl in Hs. destruct (newLocationAt route google p t) as [l0|]; [|discriminate].
  simpl in Hs. destruct (Object_is p 0); simpl in Hs.
  - injection Hs as <-. right. exists [], l0. split; reflexivity.
  - destruct (newLocationAt route google 0 t) as [l1|]; [|discriminate].
    injection Hs as <-. right. exists [l0], l1. split; reflexivity.
Qed.

(** X5.  On the shipped route a session arrives after exactly 1000 ticks:
    with fewer than 1000 frames since the start Progress is still below 1;
    with 1000 or more, whatever the clock does in between, Progress is 1 and
    the target is the newest sample, at the last waypoint (Hyderabad)
    exactly. *)
Theorem journey_takes_1000_ticks
    (google : option (LatLng -> LatLng -> float))
    (s0 : Tracker) (evs : list Event) :
  isConnected s0 = false -> unit_interval (progress s0) -> no_click evs ->
  exists s1 s',
    step routePoints google ClickConnect s0 = Some s1 /\
    run routePoints google evs s1 = Some s' /\
    ((frames evs < 1000)%nat -> (progress s' <? 1) = true) /\
    ((1000 <= frames evs)%nat ->
       progress s' = 1 /\
       exists h l, locationHistory s' = h ++ [l] /\ targetLocation s' = Some l /\
                   loc_lat l = 17.3850 /\ loc_lng l = 78.4867).
Proof.
  intros Hc Hp Hn.
  destruct (start_session routePoints google routePoints_ok s0 Hc Hp)
    as (s1 & l1 & pre & Hs & Hc1 & Hp1 & Ha1 & Hnow & Hl1 & Hh1 & Hpre & Hts).
  destruct (session_run routePoints google routePoints_ok (locationHistory s1) evs Hn 0 s1 [])
    as (s' & samples & Hr & _ & Hp' & Hh & Hlen & Hnth & _); try assumption.
  - rewrite app_nil_r. reflexivity.
  - reflexivity.
  - intros i l Hi. destruct i; discriminate.
  - apply (ascending_same_time _ (now s0)). exact Hts.
  - eapply Forall_impl; [|exact Hts]. simpl. intros l Hl. rewrite Hl, Hnow. lia.
  - exists s1, s'. split; [exact Hs|]. split; [exact Hr|]. simpl in Hp', Hlen.
    split.
    + intros Hk. rewrite Hp'. pose proof (percent_checked _ Hk) as Hc'.
      unfold percent_check in Hc'. rewrite !andb_true_iff in Hc'. tauto.
    + intros Hk. split; [rewrite Hp'; apply progressAfter_clamped; exact Hk|].
      assert (Hl : length samples = 1000%nat) by lia.
      destruct (exists_last (l := samples)) as (front & l & Hsl).
      { intros ->. discriminate. }
      assert (Hf : length front = 999%nat).
      { rewrite Hsl, length_app in Hl. simpl in Hl. lia. }
      assert (Hn999 : nth_error samples 999 = Some l).
      { rewrite Hsl, nth_error_app2 by lia. rewrite Hf. reflexivity. }
      specialize (Hnth 999%nat l Hn999).
      exists (locationHistory s1 ++ front), l.
      split; [rewrite Hh, Hsl, app_assoc; reflexivity|].
      assert (Hsh : shows_latest s').
      { apply (run_invariant routePoints google shows_latest
                 (step_shows_latest routePoints google) evs s1 s'); [|exact Hr].
        apply (start_shows_latest routePoints google s0 s1 Hc Hs). }
      split.
      * destruct Hsh as [He | (h' & l' & Hh' & Ht')].
        -- rewrite Hh, Hsl in He. destruct (locationHistory s1); destruct front; discriminate.
        -- rewrite Hh, Hsl, app_assoc in Hh'. apply app_inj_tail in Hh' as [_ ->].
           exact Ht'.
      * pose proof (newLocationAt_position routePoints google (progressAfter 1000) (timestamp l)) as Hpos.
        rewrite Hnth in Hpos. cbn [option_map] in Hpos.
        assert (E : positionOf l = mkLatLng 17.3850 78.4867).
        { assert (E0 : option_map positionOf
                         (newLocationAt routePoints None (progressAfter 1000) 0) =
                       Some (mkLatLng 17.3850 78.4867)) by (vm_compute; reflexivity).
          congruence. }
        unfold positionOf in E. injection E as E1 E2. split; assumption.
Qed.

(** ** The page around the simulator *)

Lemma getUserLocation_keeps (geolocation : bool) (s : Page.State) :
  (Page.error s <> None -> Page.error (Page.getUserLocation geolocation s) <> None) /\
  Page.userLocation (Page.getUserLocation geolocation s) = Page.userLocation s.
Proof.
  unfold Page.getUserLocation. destruct geolocation; simpl; split; auto; discriminate.
Qed.

Lemma page_step_keeps (route : list LatLng)
    (google : option (LatLng -> LatLng -> float)) (geolocation : bool)
    (e : Page.PageEvent) (s s' : Page.State) :
  Page.step route google geolocation e s = Some s' ->
  (Page.error s <> None -> Page.error s' <> None) /\
  (Page.userLocation s <> None -> Page.userLocation s' <> None).
Proof.
  destruct (getUserLocation_keeps geolocation s) as [Ge Gu].
  destruct e as [| |e| |c|m]; cbn [Page.step]; intros H.
  - unfold Page.onScriptLoad in H.
    destruct (Page.isApiLoaded s); [injection H as <-; split; auto|].
    cbn [Page.mapCreated Page.sim Page.userLocation Page.error Page.isApiLoaded] in H.
    destruct (Page.mapCreated s); [injection H as <-; split; auto|].
    destruct google; [|discriminate]. injection H as <-.
    unfold Page.getUserLocation. destruct geolocation; simpl; split; auto; discriminate.
  - injection H as <-. simpl. split; [discriminate | auto].
  - unfold Page.onSimulator in H.
    set (s1 := match e with
               | ClickConnect =>
                   if negb (isConnected (Page.sim s)) then
                     match Page.userLocation s with
                     | None => Page.getUserLocation geolocation s
                     | Some _ => s
                     end
                   else s
               | _ => s
               end) in H.
    assert (G : (Page.error s <> None -> Page.error s1 <> None) /\
                Page.userLocation s1 = Page.userLocation s).
    { subst s1. destruct e; try (split; auto; fail).
      destruct (negb _); [|split; auto].
      destruct (Page.userLocation s) eqn:E; [split; auto|]. split; [exact Ge|exact Gu]. }
    destruct G as [G1 G2]. clearbody s1.
    assert (Hs : s' = s \/ exists sim', s' = Page.mkState sim' (Page.userLocation s1)
                   (Page.error s1) (Page.isApiLoaded s1) (Page.mapCreated s1)).
    { destruct e, (Page.isApiLoaded s);
        try (injection H as <-; left; reflexivity);
        (destruct (step route google _ (Page.sim s)) as [sim'|]; [|discriminate]);
        injection H as <-; right; exists sim'; reflexivity. }
    destruct Hs as [->|[sim' ->]]; [split; auto|]. simpl. rewrite G2. split; auto.
  - injection H as <-. destruct (Page.isApiLoaded s); [|split; auto].
    rewrite Gu. split; auto.
  - injection H as <-. simpl. split; [auto | discriminate].
  - injection H as <-. simpl. split; [discriminate | auto].
Qed.

Section PageErrors.

Import String.

(** X6.  On the LocationTrack page an error message, once set, is never
    cleared, and a known user position is never forgotten, whatever happens
    afterwards.  A start while the browser has no geolocation sets the
    "not supported" message and starts the session all the same. *)
Theorem error_is_never_cleared
    (route : list LatLng) (google : option (LatLng -> LatLng -> float))
    (geolocation : bool) (evs : list Page.PageEvent) (s s' : Page.State) :
  Page.run route google geolocation evs s = Some s' ->
  (Page.error s <> None -> Page.error s' <> None) /\
  (Page.userLocation s <> None -> Page.userLocation s' <> None) /\
  (forall p p' sim',
     Page.isApiLoaded p = true -> Page.userLocation p = None ->
     isConnected (Page.sim p) = false ->
     step route google ClickConnect (Page.sim p) = Some sim' ->
     Page.step route google false (Page.Simulator ClickConnect) p = Some p' ->
     Page.sim p' = sim' /\
     Page.error p' = Some "Geolocation is not supported by your browser"%string).
Proof.
  intros Hr.
  assert (H : (Page.error s <> None -> Page.error s' <> None) /\
              (Page.userLocation s <> None -> Page.userLocation s' <> None)).
  { revert s Hr. induction evs as [|e evs IH]; intros s Hr.
    - injection Hr as <-. split; auto.
    - cbn [Page.run] in Hr.
      destruct (Page.step route google geolocation e s) as [s1|] eqn:E; [|discriminate].
      destruct (page_step_keeps route google geolocation e s s1 E) as [H1 H2].
      destruct (IH s1 Hr) as [H3 H4]. split; auto. }
  destruct H as [H1 H2]. split; [exact H1|]. split; [exact H2|].
  intros p p' sim' Hl Hu Hc Hs Hp.
  unfold Page.step, Page.onSimulator, Page.getUserLocation in Hp.
  rewrite Hl, Hu, Hc, Hs in Hp. simpl in Hp. injection Hp as <-. split; reflexivity.
Qed.

End PageErrors.

(** ** The display-side history, continued *)

(** The samples a state lets into its history. *)
Lemma accepted_update (data : Display.DLocation) (s : Display.State) :
  Display.deviceMode s = Display.display ->
  Display.falsy (Display.selectedDevice s) ||
    Display.same_device (Display.deviceId data) (Display.selectedDevice s) = true ->
  Display.onLocationUpdate data s =
    Display.mkState Display.display (Display.selectedDevice s) (Some data)
      (slice_last 200 (Display.locationHistory s) ++ [data]).
Proof.
  intros Hm Ha. unfold Display.onLocationUpdate. rewrite Hm, Ha. reflexivity.
Qed.

(** X7.  While the display accepts every sample it receives (display mode,
    no selected device), the history after any burst of location updates is
    exactly the most recent 201 of the samples before and during the burst,
    in their order of arrival: none is reordered, duplicated or dropped other
    than the oldest, and the newest is the current location. *)
Theorem history_is_recent_samples
    (samples : list Display.DLocation) (s : Display.State) :
  Display.deviceMode s = Display.display ->
  Display.falsy (Display.selectedDevice s) = true ->
  (length (Display.locationHistory s) <= 201)%nat ->
  let s' := Display.run (map Display.LocationUpdate samples) s in
  Display.locationHistory s' =
    slice_last 201 (Display.locationHistory s ++ samples) /\
  (forall front newest, samples = front ++ [newest] ->
     Display.currentLocation s' = Some newest).
Proof.
  intros Hm Hf Hl. cbv zeta. revert s Hm Hf Hl.
  induction samples as [|x samples IH] using rev_ind; intros s Hm Hf Hl.
  - simpl. rewrite app_nil_r, slice_last_all by assumption. split; [reflexivity|].
    intros front newest H. destruct front; discriminate.
  - unfold Display.run in *. rewrite map_app, fold_left_app. simpl.
    destruct (IH s Hm Hf Hl) as [IHh _].
    set (s1 := fold_left (fun st m => Display.handle m st)
                         (map Display.LocationUpdate samples) s) in *.
    assert (Hs1 : Display.deviceMode s1 = Display.display /\
                  Display.selectedDevice s1 = Display.selectedDevice s).
    { subst s1. clear IH IHh Hl. revert s Hm Hf.
      induction samples as [|y ys IHy]; intros s Hm Hf; simpl; [split; auto|].
      rewrite (accepted_update y s Hm) by (rewrite Hf; reflexivity).
      set (s2 := Display.mkState _ _ _ _).
      destruct (IHy s2 eq_refl Hf) as [A B]. split; [exact A|exact B]. }
    destruct Hs1 as [Hm1 Hsel1].
    rewrite (accepted_update x s1 Hm1) by (rewrite Hsel1, Hf; reflexivity).
    simpl. rewrite IHh, slice_last_snoc, app_assoc. split; [reflexivity|].
    intros front newest H. apply app_inj_tail in H as [_ ->]. reflexivity.
Qed.

(** ** Device selection *)

Lemma update_keeps_device (id : String.string) (data : Display.DLocation)
    (s : Display.State) :
  id <> String.EmptyString ->
  Display.selectedDevice s = Some id ->
  Forall (fun d => Display.deviceId d = Some id) (Display.locationHistory s) ->
  Forall (fun d => Display.deviceId d = Some id)
         (Display.locationHistory (Display.onLocationUpdate data s)).
Proof.
  intros Hid Hsel Hall. unfold Display.onLocationUpdate.
  destruct (Display.deviceMode s); [exact Hall|].
  rewrite Hsel. simpl.
  destruct (String.eqb_spec id String.EmptyString) as [E|_]; [contradiction|]. simpl.
  destruct (Display.deviceId data) as [d|] eqn:Ed; simpl; [|exact Hall].
  destruct (String.eqb_spec d id) as [->|_]; [|exact Hall].
  simpl. apply Forall_app. split.
  - unfold slice_last. apply Forall_forall. intros y Hy.
    rewrite Forall_forall in Hall. apply Hall.
    rewrite <- (firstn_skipn (length (Display.locationHistory s) - 200)).
    apply in_or_app. right. exact Hy.
  - constructor; [exact Ed|constructor].
Qed.

Lemma devices_list_keeps_selection (devices : list Console.DeviceInfo)
    (c : Console.State) (id : String.string) :
  id <> String.EmptyString ->
  Display.selectedDevice (Console.view c) = Some id ->
  Display.selectedDevice (Console.view (Console.onDevicesList devices c)) = Some id /\
  Display.locationHistory (Console.view (Console.onDevicesList devices c)) =
    Display.locationHistory (Console.view c).
Proof.
  intros Hid Hsel. unfold Console.onDevicesList. simpl. rewrite Hsel. simpl.
  destruct (String.eqb_spec id String.EmptyString) as [E|_]; [contradiction|]. simpl.
  destruct (Display.deviceMode (Console.view c)); split; reflexivity.
Qed.

(** X8.  After a device is selected by hand, and until the next selection,
    the history only ever holds samples of that device, whatever location
    updates, device lists and mode switches arrive. *)
Theorem selected_device_history_pure
    (id : String.string) (msgs : list Console.Msg) (c : Console.State) :
  id <> String.EmptyString ->
  Forall Console.no_select msgs ->
  let c' := Console.run msgs (Console.handle (Console.View (Display.DeviceSelect id)) c) in
  Display.selectedDevice (Console.view c') = Some id /\
  Forall (fun d => Display.deviceId d = Some id)
         (Display.locationHistory (Console.view c')).
Proof.
  intros Hid Hmsgs. cbv zeta.
  set (c0 := Console.handle (Console.View (Display.DeviceSelect id)) c).
  assert (H0 : Display.selectedDevice (Console.view c0) = Some id /\
               Forall (fun d => Display.deviceId d = Some id)
                      (Display.locationHistory (Console.view c0))).
  { subst c0. simpl. split; [reflexivity|constructor]. }
  clearbody c0. revert c0 H0. unfold Console.run.
  induction Hmsgs as [|m msgs Hm _ IH]; intros c0 [Hsel Hall]; simpl; [split; assumption|].
  apply IH. destruct m as [[data|id'|]|devices]; simpl in *.
  - split.
    + unfold Display.onLocationUpdate.
      destruct (Display.deviceMode (Console.view c0)); [exact Hsel|].
      destruct (_ || _); [simpl|]; exact Hsel.
    + apply update_keeps_device; assumption.
  - contradiction.
  - split; assumption.
  - destruct (devices_list_keeps_selection devices c0 id Hid Hsel) as [H1 H2].
    split; [exact H1|]. simpl in H2. unfold Console.onDevicesList in *. simpl in *.
    exact Hall.
Qed.

(** ** The device list *)

(** What [find] returns is the head of what [filter] keeps. *)
Lemma find_filter_head {A : Type} (f : A -> bool) (l : list A) :
  find f l = hd_error (filter f l).
Proof.
  induction l as [|x l IH]; simpl; [reflexivity|]. destruct (f x); [reflexivity|exact IH].
Qed.

(** X9.  A device list never shows this device itself and never touches the
    history or a selection that is already made.  In display mode with
    nothing selected it selects the device at the head of the list it shows,
    without clearing the history; if that list is empty the selection stays
    as it is. *)
Theorem devices_list_selection
    (devices : list Console.DeviceInfo) (c : Console.State) :
  let c' := Console.onDevicesList devices c in
  Forall (fun d => Console.id d <> Console.sessionId c) (Console.connectedDevices c') /\
  Display.locationHistory (Console.view c') = Display.locationHistory (Console.view c) /\
  (Display.falsy (Display.selectedDevice (Console.view c)) = false ->
   Display.selectedDevice (Console.view c') = Display.selectedDevice (Console.view c)) /\
  (Display.deviceMode (Console.view c) = Display.display ->
   Display.falsy (Display.selectedDevice (Console.view c)) = true ->
   forall d rest, Console.connectedDevices c' = d :: rest ->
     Display.selectedDevice (Console.view c') = Some (Console.id d)) /\
  (Console.connectedDevices c' = [] ->
   Display.selectedDevice (Console.view c') = Display.selectedDevice (Console.view c)).
Proof.
  cbv zeta. unfold Console.onDevicesList. cbn [Console.connectedDevices Console.view
    Display.locationHistory Display.selectedDevice].
  rewrite find_filter_head.
  split; [|split; [reflexivity|split; [|split]]].
  - apply Forall_forall. intros d Hd. apply filter_In in Hd as [_ Hd].
    unfold Console.other in Hd. intros E. rewrite E, String.eqb_refl in Hd. discriminate.
  - intros Hf. rewrite Hf. simpl. destruct (Display.deviceMode _); reflexivity.
  - intros Hm Hf d rest Hl. rewrite Hm, Hf, Hl. simpl.
    assert (He : existsb (Console.other (Console.sessionId c)) devices = true).
    { apply existsb_exists. exists d.
      assert (Hin : In d (filter (Console.other (Console.sessionId c)) devices))
        by (rewrite Hl; left; reflexivity).
      apply filter_In in Hin. exact Hin. }
    rewrite He. reflexivity.
  - intros Hl. rewrite Hl. simpl.
    destruct (Display.deviceMode _); [reflexivity|]. destruct (_ && _); reflexivity.
Qed.

(** ** What a sharing device sends *)

Lemma truthy_not_nan (x : float) : Device.truthy x = true -> is_nan x = false.
Proof.
  unfold Device.truthy. intros H. apply andb_prop in H as [_ H].
  destruct (is_nan x); [discriminate|reflexivity].
Qed.

Lemma newLocation_wellformed (p : Device.Position) (sessionId : String.string) :
  let r := Device.newLocation p sessionId in
  Device.r_deviceId r = sessionId /\
  (forall h, Device.r_heading r = Some h -> Device.truthy h = true) /\
  is_nan (Device.r_speed r) = false.
Proof.
  cbv zeta. unfold Device.newLocation. simpl. split; [reflexivity|]. split.
  - intros h. unfold Device.or_undefined. destruct (Device.heading p) as [v|]; [|discriminate].
    destruct (Device.truthy v) eqn:E; [|discriminate]. intros H. injection H as <-. exact E.
  - unfold Device.or_zero. destruct (Device.speed p) as [v|]; [|reflexivity].
    destruct (Device.truthy v) eqn:E; [|reflexivity]. apply truthy_not_nan. exact E.
Qed.

(** X10.  Whatever the user and the browser do, every location a device has
    sent carries the device's own session id, a speed that is a number, and
    either no heading or a heading that is neither zero nor NaN: a fix
    heading due north (0 degrees) is sent without heading.  The page shows
    itself as tracking exactly while a watch is registered. *)
Theorem sent_reports_wellformed
    (sessionId : String.string) (geolocation socket : bool)
    (evs : list Device.Event) :
  let s := Device.run sessionId geolocation socket evs Device.initial in
  Forall (fun r => Device.r_deviceId r = sessionId /\
                   (forall h, Device.r_heading r = Some h -> Device.truthy h = true) /\
                   is_nan (Device.r_speed r) = false) (Device.sent s) /\
  (Device.isTracking s = true <-> Device.watchIdRef s <> None) /\
  (forall p, Device.heading p = Some 0 \/ Device.heading p = Some (-0) ->
     Device.r_heading (Device.newLocation p sessionId) = None).
Proof.
  cbv zeta. split; [|split].
  - unfold Device.run.
    assert (H0 : Forall (fun r => Device.r_deviceId r = sessionId /\
                   (forall h, Device.r_heading r = Some h -> Device.truthy h = true) /\
                   is_nan (Device.r_speed r) = false) (Device.sent Device.initial))
      by constructor.
    revert H0. generalize Device.initial. induction evs as [|e evs IH]; intros s Hs; [exact Hs|].
    simpl. apply IH. 
    assert (Hfix : forall p,
      Forall (fun r => Device.r_deviceId r = sessionId /\
                   (forall h, Device.r_heading r = Some h -> Device.truthy h = true) /\
                   is_nan (Device.r_speed r) = false)
        (Device.sent (Device.onWatchFix sessionId socket p s))).
    { intros p. unfold Device.onWatchFix. destruct socket; simpl; [|exact Hs].
      apply Forall_app. split; [exact Hs|]. constructor; [|constructor].
      apply newLocation_wellformed. }
    destruct e; simpl.
    + destruct (Device.deviceMode s); [|exact Hs]. unfold Device.toggleTracking.
      destruct (Device.isTracking s); [exact Hs|]. destruct geolocation; exact Hs.
    + destruct (Device.deviceMode s); [|exact Hs]. unfold Device.getCurrentLocation.
      destruct geolocation; exact Hs.
    + exact Hs.
    + destruct (Device.watchIdRef s); [apply Hfix|exact Hs].
    + destruct (Device.watchIdRef s); exact Hs.
    + apply Hfix.
    + exact Hs.
  - unfold Device.run.
    assert (H0 : Device.isTracking Device.initial = true <->
                 Device.watchIdRef Device.initial <> None)
      by (simpl; split; [discriminate|intros H; contradiction H; reflexivity]).
    revert H0. generalize Device.initial. induction evs as [|e evs IH]; intros s Hs; [exact Hs|].
    simpl. apply IH. destruct e; simpl.
    + destruct (Device.deviceMode s); [|exact Hs]. unfold Device.toggleTracking.
      destruct (Device.isTracking s) eqn:E.
      * simpl. split; [discriminate|intros H; contradiction H; reflexivity].
      * destruct geolocation; simpl; [split; [discriminate|reflexivity]|].
        rewrite E. exact Hs.
    + destruct (Device.deviceMode s); [|exact Hs]. unfold Device.getCurrentLocation.
      destruct geolocation; exact Hs.
    + exact Hs.
    + destruct (Device.watchIdRef s) eqn:E; [|rewrite E; exact Hs].
      unfold Device.onWatchFix. destruct socket; simpl; rewrite E; exact Hs.
    + destruct (Device.watchIdRef s) eqn:E; simpl; rewrite E; exact Hs.
    + unfold Device.onCurrentFix. destruct socket; simpl; exact Hs.
    + exact Hs.
  - intros p [H|H]; unfold Device.newLocation; simpl; rewrite H; reflexivity.
Qed.

Lemma step_without_toggle (sessionId : String.string) (geolocation : bool)
    (e : Device.Event) (s : Device.State) (id : Z) :
  Device.no_toggle e ->
  Device.watchIdRef s = Some id -> Device.isTracking s = true ->
  let s' := Device.step sessionId geolocation true e s in
  Device.sent s' =
    Device.sent s ++ map (fun p => Device.newLocation p sessionId) (Device.fixes [e]) /\
  Device.watchIdRef s' = Some id /\ Device.isTracking s' = true.
Proof.
  intros He Hw Ht. cbv zeta. destruct e; simpl in He |- *; try contradiction;
    rewrite ?Hw; simpl; rewrite ?app_nil_r; auto.
  destruct (Device.deviceMode s); [|auto].
  unfold Device.getCurrentLocation. destruct geolocation; simpl; auto.
Qed.

Lemma fixes_cons (e : Device.Event) (evs : list Device.Event) :
  Device.fixes (e :: evs) = Device.fixes [e] ++ Device.fixes evs.
Proof. destruct e; reflexivity. Qed.

(** X11.  Sharing survives a change of view: once a watch is registered and
    until the start/stop button is used, every fix the browser delivers is
    sent, in order and exactly once, however often the page is switched
    between the tracker and the display view; the watch stays registered. *)
Theorem sharing_survives_mode_switch
    (sessionId : String.string) (geolocation : bool)
    (evs : list Device.Event) (s : Device.State) (id : Z) :
  Device.watchIdRef s = Some id ->
  Device.isTracking s = true ->
  Forall Device.no_toggle evs ->
  let s' := Device.run sessionId geolocation true evs s in
  Device.sent s' =
    Device.sent s ++ map (fun p => Device.newLocation p sessionId) (Device.fixes evs) /\
  Device.watchIdRef s' = Some id /\
  Device.isTracking s' = true.
Proof.
  intros Hw Ht Hevs. cbv zeta. revert s Hw Ht. unfold Device.run.
  induction Hevs as [|e evs He _ IH]; intros s Hw Ht.
  - simpl. rewrite app_nil_r. auto.
  - cbn [fold_left].
    destruct (step_without_toggle sessionId geolocation e s id He Hw Ht) as (H1 & H2 & H3).
    destruct (IH _ H2 H3) as (I1 & I2 & I3).
    split; [|split; assumption].
    rewrite I1, H1, (fixes_cons e evs), map_app, app_assoc. reflexivity.
Qed.

(** ** The extras at concrete inputs *)

Lemma first_tick_reachable :
  exists s, run routePoints dueSouth [ClickConnect; AnimationFrame] (mount 0) = Some s /\
            reachable routePoints dueSouth s.
Proof.
  assert (E : exists s,
            run routePoints dueSouth [ClickConnect; AnimationFrame] (mount 0) = Some s)
    by (vm_compute; eexists; reflexivity).
  destruct E as [s E]. exists s. split; [exact E|].
  exact (ex_intro _ 0%Z (ex_intro _ [ClickConnect; AnimationFrame] E)).
Qed.

Lemma target_is_latest_sample_witness :
  exists s, run routePoints dueSouth [ClickConnect; AnimationFrame] (mount 0) = Some s /\
    reachable routePoints dueSouth s /\
    ((locationHistory s = [] /\
      exists t, targetLocation s = targetLocation (mount t)) \/
     (exists h l, locationHistory s = h ++ [l] /\ targetLocation s = Some l)).
Proof.
  destruct first_tick_reachable as (s & E & Hr). exists s.
  split; [exact E|]. split; [exact Hr|].
  apply (target_is_latest_sample routePoints dueSouth s Hr).
Defined.

Lemma map_update_follows_history_witness :
  exists s, run routePoints dueSouth [ClickConnect; AnimationFrame] (mount 0) = Some s /\
    reachable routePoints dueSouth s /\
    exists u, updateMapEffect true s = Some u /\
      pathCoords u = map positionOf (locationHistory s) ++ [markerPosition u] /\
      length (pathCoords u) = S (length (locationHistory s)) /\
      (forall h l, locationHistory s = h ++ [l] ->
         markerPosition u = positionOf l /\
         (exists r, markerRotation u = Some r /\ heading l = Some r) /\
         pathCoords u = map positionOf h ++ [positionOf l; positionOf l]).
Proof.
  destruct first_tick_reachable as (s & E & Hr). exists s.
  split; [exact E|]. split; [exact Hr|].
  apply (map_update_follows_history routePoints dueSouth s Hr).
Defined.

Lemma samples_between_the_cities_witness :
  exists s, run routePoints dueSouth [ClickConnect; AnimationFrame] (mount 0) = Some s /\
    reachable routePoints dueSouth s /\
    Forall (fun l => betweenTheCities (positionOf l) = true) (locationHistory s) /\
    exists l, targetLocation s = Some l /\ betweenTheCities (positionOf l) = true.
Proof.
  destruct first_tick_reachable as (s & E & Hr). exists s.
  split; [exact E|]. split; [exact Hr|].
  apply (samples_between_the_cities dueSouth s Hr).
Defined.

Lemma progress_bar_in_range_witness :
  exists s, run routePoints dueSouth [ClickConnect; AnimationFrame] (mount 0) = Some s /\
    reachable routePoints dueSouth s /\
    unit_interval (progress s) /\
    (0 <=? progressPercent s) = true /\ (progressPercent s <=? 100) = true.
Proof.
  destruct first_tick_reachable as (s & E & Hr). exists s.
  split; [exact E|]. split; [exact Hr|].
  apply (progress_bar_in_range routePoints dueSouth s Hr).
Defined.

Lemma journey_takes_1000_ticks_witness :
  isConnected (mount 0) = false /\ unit_interval (progress (mount 0)) /\
  no_click (repeat AnimationFrame 1000) /\
  exists s1 s',
    step routePoints None ClickConnect (mount 0) = Some s1 /\
    run routePoints None (repeat AnimationFrame 1000) s1 = Some s' /\
    ((frames (repeat AnimationFrame 1000) < 1000)%nat -> (progress s' <? 1) = true) /\
    ((1000 <= frames (repeat AnimationFrame 1000))%nat ->
       progress s' = 1 /\
       exists h l, locationHistory s' = h ++ [l] /\ targetLocation s' = Some l /\
                   loc_lat l = 17.3850 /\ loc_lng l = 78.4867).
Proof.
  assert (Hn : no_click (repeat AnimationFrame 1000)).
  { apply Forall_forall. intros e He. apply repeat_spec in He. subst e. discriminate. }
  split; [reflexivity|]. split; [split; reflexivity|]. split; [exact Hn|].
  apply (journey_takes_1000_ticks None (mount 0) (repeat AnimationFrame 1000));
    [reflexivity | split; reflexivity | exact Hn].
Defined.

Section PageWitness.

Import String.

Lemma error_is_never_cleared_witness :
  exists s',
    Page.run routePoints dueSouth false
      [Page.ScriptLoad; Page.Simulator ClickConnect]
      (Page.setError "Failed to load Google Maps API" (Page.mount 0)) = Some s' /\
    Page.error (Page.setError "Failed to load Google Maps API" (Page.mount 0)) <> None /\
    Page.error s' <> None.
Proof.
  assert (E : exists s',
    Page.run routePoints dueSouth false
      [Page.ScriptLoad; Page.Simulator ClickConnect]
      (Page.setError "Failed to load Google Maps API" (Page.mount 0)) = Some s')
    by (vm_compute; eexists; reflexivity).
  destruct E as [s' E]. exists s'. split; [exact E|].
  assert (H : Page.error (Page.setError "Failed to load Google Maps API" (Page.mount 0))
              <> None) by discriminate.
  split; [exact H|].
  exact (proj1 (error_is_never_cleared routePoints dueSouth false
                  [Page.ScriptLoad; Page.Simulator ClickConnect] _ s' E) H).
Defined.

Lemma selected_device_history_pure_witness :
("a" <> EmptyString)%string /\
  Forall Console.no_select
    [Console.View (Display.LocationUpdate (Display.mkDLocation 18.4 79.1 2000 (Some "a"%string)));
     Console.DevicesList [Console.mkDeviceInfo "b" "Device_7" 0];
     Console.View (Display.LocationUpdate (Display.mkDLocation 17.4 78.5 3000 (Some "b"%string)))] /\
  let c' :=
    Console.run
      [Console.View (Display.LocationUpdate (Display.mkDLocation 18.4 79.1 2000 (Some "a"%string)));
       Console.DevicesList [Console.mkDeviceInfo "b" "Device_7" 0];
       Console.View (Display.LocationUpdate (Display.mkDLocation 17.4 78.5 3000 (Some "b"%string)))]
      (Console.handle (Console.View (Display.DeviceSelect "a"))
                      (Console.mkState Display.initial "me" [])) in
  Display.selectedDevice (Console.view c') = Some "a"%string /\
  Forall (fun d => Display.deviceId d = Some "a"%string)
         (Display.locationHistory (Console.view c')).
Proof.
  split; [discriminate|]. split; [repeat constructor|].
  apply (selected_device_history_pure "a"); [discriminate | repeat constructor].
Defined.

End PageWitness.

(** 301 samples received by the display as it is after mounting: 100 are
    dropped. *)
Lemma display_history_bounded_witness :
  (length (Display.locationHistory Display.initial) <= 201)%nat /\
  let msgs := map Display.LocationUpdate (repeat sampleA 300 ++ [sampleB]) in
  let history := Display.locationHistory (Display.run msgs Display.initial) in
  let unbounded :=
    Display.received msgs Display.initial (Display.locationHistory Display.initial) in
  length unbounded = 301%nat /\
  history = slice_last 201 unbounded /\
  (exists dropped, unbounded = dropped ++ history /\
     length dropped = (length unbounded - 201)%nat) /\
  length history = Nat.min (length unbounded) 201.
Proof.
  assert (Hl : (length (Display.locationHistory Display.initial) <= 201)%nat)
    by (simpl; lia).
  split; [exact Hl|]. cbv zeta. split; [vm_compute; reflexivity|].
  exact (proj2 (proj2 (display_history_bounded
                         (map Display.LocationUpdate (repeat sampleA 300 ++ [sampleB]))
                         Display.initial)) Hl).
Defined.

Lemma history_is_recent_samples_witness :
  Display.deviceMode Display.initial = Display.display /\
  Display.falsy (Display.selectedDevice Display.initial) = true /\
  (length (Display.locationHistory Display.initial) <= 201)%nat /\
  Display.locationHistory
    (Display.run (map Display.LocationUpdate [sampleA; sampleB]) Display.initial) =
    slice_last 201 (Display.locationHistory Display.initial ++ [sampleA; sampleB]) /\
  (forall front newest, [sampleA; sampleB] = front ++ [newest] ->
     Display.currentLocation
       (Display.run (map Display.LocationUpdate [sampleA; sampleB]) Display.initial) =
     Some newest).
Proof.
  split; [reflexivity|]. split; [reflexivity|]. split; [simpl; lia|].
  apply (history_is_recent_samples [sampleA; sampleB] Display.initial);
    [reflexivity | reflexivity | simpl; lia].
Defined.

Lemma sharing_survives_mode_switch_witness :
  Device.watchIdRef sharing = Some 1%Z /\
  Device.isTracking sharing = true /\
  Forall Device.no_toggle
    [Device.SwitchMode; Device.WatchFix fixAtRest; Device.SwitchMode;
     Device.WatchFix fixAtRest] /\
  Device.sent
    (Device.run String.EmptyString true true
       [Device.SwitchMode; Device.WatchFix fixAtRest; Device.SwitchMode;
        Device.WatchFix fixAtRest] sharing) =
    Device.sent sharing ++
    map (fun p => Device.newLocation p String.EmptyString)
        (Device.fixes [Device.SwitchMode; Device.WatchFix fixAtRest; Device.SwitchMode;
                       Device.WatchFix fixAtRest]) /\
  Device.watchIdRef
    (Device.run String.EmptyString true true
       [Device.SwitchMode; Device.WatchFix fixAtRest; Device.SwitchMode;
        Device.WatchFix fixAtRest] sharing) = Some 1%Z /\
  Device.isTracking
    (Device.run String.EmptyString true true
       [Device.SwitchMode; Device.WatchFix fixAtRest; Device.SwitchMode;
        Device.WatchFix fixAtRest] sharing) = true.
Proof.
  split; [reflexivity|]. split; [reflexivity|]. split; [repeat constructor|].
  apply (sharing_survives_mode_switch String.EmptyString true
           [Device.SwitchMode; Device.WatchFix fixAtRest; Device.SwitchMode;
            Device.WatchFix fixAtRest] sharing 1%Z);
    [reflexivity | reflexivity | repeat constructor].
Defined.
